(** * NetCAT-Backup: a shallow embedding of the backup workflow

    The development follows the Python sources:
    - [netcat.py]          command-name codec, snapshot compression, fleet runner;
    - [netcat_backup.py]   change detection, persistence of snapshots, the driver;
    - [netcat_dynamodb.py] the storage write with its retry loop;
    - [netcat_cli.py]      the login dialogue of the CLI session.

    Python [str] values are sequences of Unicode code points and [bytes]
    values are sequences of octets; both are lists of integers here.
    Python dictionaries are insertion-ordered, so they are association
    lists whose assignment replaces a bound key in place. *)

From Stdlib Require Import ZArith List Bool Lia Lqa String Ascii QArith.
Import ListNotations.

Open Scope Z_scope.

(** ** Python strings and bytes *)

Definition str := list Z.
Definition bytes := list Z.

(** A string literal of the source, as its sequence of code points. *)
Definition lit (s : string) : str :=
  map (fun a => Z.of_N (N_of_ascii a)) (list_ascii_of_string s).

Definition str_eqb (a b : str) : bool :=
  if list_eq_dec Z.eq_dec a b then true else false.

(** Errors are results [None]; sequencing of fallible steps. *)
Definition bind {A B} (m : option A) (f : A -> option B) : option B :=
  match m with Some a => f a | None => None end.

Notation "x <- m ;; k" := (bind m (fun x => k))
  (at level 61, m at next level, right associativity).

(** *** [str.encode("utf-8")] and [str(b, "utf-8")] *)

Definition is_surrogate (c : Z) : bool := (55296 <=? c) && (c <=? 57343).

(** A code point that UTF-8 can carry: a Unicode scalar value. *)
Definition scalar_value (c : Z) : Prop :=
  0 <= c < 1114112 /\ ~ (55296 <= c <= 57343).

Definition is_byte (b : Z) : Prop := 0 <= b < 256.

Definition utf8_encode_char (c : Z) : option bytes :=
  if c <? 0 then None
  else if c <? 128 then Some [c]
  else if c <? 2048 then Some [192 + c / 64; 128 + c mod 64]
  else if c <? 65536 then
    if is_surrogate c then None
    else Some [224 + c / 4096; 128 + (c / 64) mod 64; 128 + c mod 64]
  else if c <? 1114112 then
    Some [240 + c / 262144; 128 + (c / 4096) mod 64;
          128 + (c / 64) mod 64; 128 + c mod 64]
  else None.

(** [s.encode("utf-8")]; [None] is [UnicodeEncodeError]. *)
Fixpoint utf8_encode (s : str) : option bytes :=
  match s with
  | [] => Some []
  | c :: r =>
      b <- utf8_encode_char c ;;
      br <- utf8_encode r ;;
      Some (b ++ br)
  end.

Definition is_cont (b : Z) : bool := (128 <=? b) && (b <=? 191).

(** [str(b, "utf-8")] with the strict error handler; [None] is
    [UnicodeDecodeError].  Overlong forms, surrogates and values above
    U+10FFFF are rejected, as CPython does. *)
Fixpoint utf8_decode (b : bytes) : option str :=
  match b with
  | [] => Some []
  | b0 :: r0 =>
      if (0 <=? b0) && (b0 <? 128) then
        s <- utf8_decode r0 ;; Some (b0 :: s)
      else if (194 <=? b0) && (b0 <=? 223) then
        match r0 with
        | b1 :: r1 =>
            if is_cont b1 then
              s <- utf8_decode r1 ;;
              Some (((b0 - 192) * 64 + (b1 - 128)) :: s)
            else None
        | _ => None
        end
      else if (224 <=? b0) && (b0 <=? 239) then
        match r0 with
        | b1 :: b2 :: r2 =>
            let c := (b0 - 224) * 4096 + (b1 - 128) * 64 + (b2 - 128) in
            if is_cont b1 && is_cont b2 && (2048 <=? c) && negb (is_surrogate c)
            then s <- utf8_decode r2 ;; Some (c :: s)
            else None
        | _ => None
        end
      else if (240 <=? b0) && (b0 <=? 244) then
        match r0 with
        | b1 :: b2 :: b3 :: r3 =>
            let c := (b0 - 240) * 262144 + (b1 - 128) * 4096
                     + (b2 - 128) * 64 + (b3 - 128) in
            if is_cont b1 && is_cont b2 && is_cont b3
               && (65536 <=? c) && (c <? 1114112)
            then s <- utf8_decode r3 ;; Some (c :: s)
            else None
        | _ => None
        end
      else None
  end.

(** *** [binascii.hexlify] and [binascii.unhexlify] *)

(** The lower-case hexadecimal digit of a nibble, as an ASCII code. *)
Definition hex_digit (n : Z) : Z := if n <? 10 then 48 + n else 87 + n.

Fixpoint hexlify (b : bytes) : bytes :=
  match b with
  | [] => []
  | x :: r => hex_digit (x / 16) :: hex_digit (x mod 16) :: hexlify r
  end.

(** The value of a hexadecimal digit; both cases are accepted. *)
Definition hex_value (c : Z) : option Z :=
  if (48 <=? c) && (c <=? 57) then Some (c - 48)
  else if (97 <=? c) && (c <=? 102) then Some (c - 87)
  else if (65 <=? c) && (c <=? 70) then Some (c - 55)
  else None.

(** [unhexlify] of a string; [None] is [binascii.Error] (odd length or a
    character that is not a hexadecimal digit, which covers non-ASCII). *)
Fixpoint unhexlify (s : str) : option bytes :=
  match s with
  | [] => Some []
  | h :: l :: r =>
      hv <- hex_value h ;;
      lv <- hex_value l ;;
      br <- unhexlify r ;;
      Some ((hv * 16 + lv) :: br)
  | _ => None
  end.

(** *** [str.maketrans] and [str.translate] *)

(** The table is a dictionary: a later binding of a character wins. *)
Definition maketrans (x y : str) : list (Z * Z) := combine x y.

Fixpoint trans_lookup (tbl : list (Z * Z)) (c : Z) : option Z :=
  match tbl with
  | [] => None
  | (k, v) :: r =>
      match trans_lookup r c with
      | Some v' => Some v'
      | None => if k =? c then Some v else None
      end
  end.

Definition translate (tbl : list (Z * Z)) (s : str) : str :=
  map (fun c => match trans_lookup tbl c with Some v => v | None => c end) s.

(** ** netcat.py: the command-name codec *)

Definition encode_command (command_name : str) : option str :=
  b <- utf8_encode command_name ;;
  h <- utf8_decode (hexlify b) ;;
  Some (translate (maketrans (lit "1234567890") (lit "ghijklmnop")) h).

Definition decode_command (command_name : str) : option str :=
  b <- unhexlify
         (translate (maketrans (lit "ghijklmnop") (lit "1234567890")) command_name) ;;
  utf8_decode b.

(** The letters [a]..[p]. *)
Definition a_to_p (c : Z) : Prop := 97 <= c <= 112.

Definition is_ascii (c : Z) : Prop := 0 <= c < 128.

(** The digits [0]..[9] and the letters [a]..[f]. *)
Definition hex_lower (c : Z) : Prop := 48 <= c <= 57 \/ 97 <= c <= 102.

(** Boolean form of [scalar_value], to check concrete strings. *)
Definition scalar_valueb (c : Z) : bool :=
  (0 <=? c) && (c <? 1114112) && negb ((55296 <=? c) && (c <=? 57343)).

(** ** Python dictionaries with string keys *)

Definition dict (V : Type) := list (str * V).

Definition keys {V} (d : dict V) : list str := map fst d.

(** [d.get(k)]; [None] when the key is absent. *)
Fixpoint dict_get {V} (d : dict V) (k : str) : option V :=
  match d with
  | [] => None
  | (k', v) :: r => if str_eqb k' k then Some v else dict_get r k
  end.

(** [d[k] = v]: a bound key keeps its position, a new key goes last. *)
Fixpoint dict_set {V} (d : dict V) (k : str) (v : V) : dict V :=
  match d with
  | [] => [(k, v)]
  | (k', v') :: r =>
      if str_eqb k' k then (k', v) :: r else (k', v') :: dict_set r k v
  end.

(** The loop [out = {}; for k, v in d.items(): out[f(k)] = g(v)], where
    [f] and [g] may raise. *)
Definition rebuild_step {V W} (f : str -> option str) (g : V -> option W)
    (acc : option (dict W)) (kv : str * V) : option (dict W) :=
  out <- acc ;;
  v <- g (snd kv) ;;
  k <- f (fst kv) ;;
  Some (dict_set out k v).

Definition dict_rebuild {V W} (f : str -> option str) (g : V -> option W)
    (d : dict V) : option (dict W) :=
  fold_left (rebuild_step f g) d (Some []).

(** One binding is carried to another one by [f] on keys and [g] on values. *)
Definition carried {V W} (f : str -> option str) (g : V -> option W)
    (kv : str * V) (kw : str * W) : Prop :=
  f (fst kv) = Some (fst kw) /\ g (snd kv) = Some (snd kw).

Fixpoint nodupb (l : list str) : bool :=
  match l with
  | [] => true
  | x :: r => negb (existsb (str_eqb x) r) && nodupb r
  end.

(** ** netcat.py: compression of device data *)

(** The device-data dictionary.  A field is [None] when its key is absent,
    which is what [.get] returns for it; the empty dictionary has no field. *)
Record device_data := {
  snapshot_timestamp : option Z;
  device_name : option str;
  device_type : option str;
  output_formats : option (dict (dict str))
}.

Definition empty_data : device_data :=
  {| snapshot_timestamp := None; device_name := None;
     device_type := None; output_formats := None |}.

(** [not device_data]: the dictionary is empty. *)
Definition is_empty (d : device_data) : bool :=
  match snapshot_timestamp d, device_name d, device_type d, output_formats d with
  | None, None, None, None => true
  | _, _, _, _ => false
  end.

(** [d.get("output_formats", {})] *)
Definition get_output_formats (d : device_data) : dict (dict str) :=
  match output_formats d with Some fs => fs | None => [] end.

(** The library functions [bz2.compress], [bz2.decompress],
    [base64.b85encode] and [base64.b85decode], on bytes. *)
Record blob_codec := {
  bz2_compress : bytes -> bytes;
  bz2_decompress : bytes -> option bytes;
  b85encode : bytes -> bytes;
  b85decode : bytes -> option bytes
}.

(** What the libraries document: both pairs are lossless on byte strings,
    and Base85 text is ASCII. *)
Record blob_codec_ok (K : blob_codec) : Prop := {
  bz2_bytes : forall b, Forall is_byte b -> Forall is_byte (bz2_compress K b);
  bz2_roundtrip : forall b, Forall is_byte b ->
    bz2_decompress K (bz2_compress K b) = Some b;
  b85_ascii : forall b, Forall is_byte b -> Forall is_ascii (b85encode K b);
  b85_roundtrip : forall b, Forall is_byte b ->
    b85decode K (b85encode K b) = Some b
}.

(** [s.encode("ascii")], which [b85decode] applies to a [str] argument. *)
Definition ascii_encode (s : str) : option bytes :=
  if forallb (fun c => (0 <=? c) && (c <? 128)) s then Some s else None.

(** [str(b85encode(compress(bytes(command_data, "utf-8"))), "utf-8")] *)
Definition compress_output (K : blob_codec) (command_data : str) : option str :=
  b <- utf8_encode command_data ;;
  utf8_decode (b85encode K (bz2_compress K b)).

(** [str(decompress(b85decode(command_data)), "utf-8")] *)
Definition decompress_output (K : blob_codec) (command_data : str) : option str :=
  a <- ascii_encode command_data ;;
  z <- b85decode K a ;;
  b <- bz2_decompress K z ;;
  utf8_decode b.

Definition compress_device_data (K : blob_codec) (d : device_data)
    : option device_data :=
  if is_empty d then Some empty_data
  else
    fs <- dict_rebuild Some
            (dict_rebuild encode_command (compress_output K))
            (get_output_formats d) ;;
    Some {| snapshot_timestamp := snapshot_timestamp d;
            device_name := device_name d;
            device_type := device_type d;
            output_formats := Some fs |}.

Definition decompress_device_data (K : blob_codec) (c : device_data)
    : option device_data :=
  if is_empty c then Some empty_data
  else
    fs <- dict_rebuild Some
            (dict_rebuild decode_command (decompress_output K))
            (get_output_formats c) ;;
    Some {| snapshot_timestamp := snapshot_timestamp c;
            device_name := device_name c;
            device_type := device_type c;
            output_formats := Some fs |}.

(** A well-formed [DeviceSnapshot]: the four keys are present, the two
    levels of [output_formats] are dictionaries (no key twice), and command
    names and outputs are text that UTF-8 can encode. *)
Definition well_formed_format (f : dict str) : bool :=
  nodupb (keys f)
  && forallb (fun kv => forallb scalar_valueb (fst kv)
                        && forallb scalar_valueb (snd kv)) f.

Definition well_formed_snapshot (d : device_data) : bool :=
  match snapshot_timestamp d, device_name d, device_type d, output_formats d with
  | Some _, Some _, Some _, Some fs =>
      nodupb (keys fs) && forallb (fun kv => well_formed_format (snd kv)) fs
  | _, _, _, _ => false
  end.

(** A stand-in codec on which the library contract can be checked:
    no compression, hexadecimal text. *)
Definition hex_codec : blob_codec :=
  {| bz2_compress := fun b => b;
     bz2_decompress := fun b => Some b;
     b85encode := hexlify;
     b85decode := unhexlify |}.

Definition sample_snapshot : device_data :=
  {| snapshot_timestamp := Some 1600000000;
     device_name := Some (lit "rtr1");
     device_type := Some (lit "cisco_router");
     output_formats := Some
       [ (lit "backup_running",
           [ (lit "show running-config", [104; 111; 115; 116; 10; 8364; 10]) ]);
         (lit "info",
           [ (lit "show clock", lit "12:00");
             (lit "show version", lit "15.2") ]) ] |}.

(** ** String methods used by the change detector *)

(** [s.split(sep)] for a one-character separator: never empty. *)
Fixpoint split (sep : Z) (s : str) : list str :=
  match s with
  | [] => [[]]
  | c :: r =>
      if c =? sep then [] :: split sep r
      else match split sep r with
           | cur :: rest => (c :: cur) :: rest
           | [] => [[c]]
           end
  end.

(** [s.startswith(prefix)] *)
Fixpoint startswith (s prefix : str) {struct prefix} : bool :=
  match prefix, s with
  | [], _ => true
  | p :: pr, c :: r => (c =? p) && startswith r pr
  | _ :: _, [] => false
  end.

(** [s.find(sub)]: the lowest index where [sub] occurs, or [-1]. *)
Fixpoint find_from (i : Z) (s sub : str) : Z :=
  if startswith s sub then i
  else match s with
       | [] => -1
       | _ :: r => find_from (i + 1) r sub
       end.

Definition find (s sub : str) : Z := find_from 0 s sub.

(** ** netcat_backup.py: the change detector *)

(** The source holds the exclusions in a set; the loop over it only asks
    whether some member occurs, so the order of the list is immaterial. *)
Definition exclusions : list str :=
  [lit "!Time:"; lit "no ip domain-lookup"; lit "state up"; lit "state down"].

(** The inner [for ... else]: [true] when the loop leaves by [break]. *)
Definition excluded (output_a_line output_b_line : str) : bool :=
  existsb (fun exclusion =>
             (find output_a_line exclusion >=? 0)
             || (find output_b_line exclusion >=? 0))
          exclusions.

(** The loop over [zip(output_a_lines, output_b_lines)]. *)
Fixpoint compare_lines (pairs : list (str * str)) : bool :=
  match pairs with
  | [] => true
  | (output_a_line, output_b_line) :: r =>
      if negb (str_eqb output_a_line output_b_line) then
        if excluded output_a_line output_b_line then compare_lines r
        else false
      else compare_lines r
  end.

Definition compare_command_outputs (output_a output_b : str) : bool :=
  let output_a_lines := split 10 output_a in
  let output_b_lines := split 10 output_b in
  if negb (Nat.eqb (List.length output_a_lines) (List.length output_b_lines))
  then false
  else compare_lines (combine output_a_lines output_b_lines).

(** [d.get(k, default)] *)
Definition dict_get_default {V} (d : dict V) (k : str) (default : V) : V :=
  match dict_get d k with Some v => v | None => default end.

(** [previous_formats.get(format_key, {}).get(command_output_key, "")] *)
Definition previous_output (previous_formats : dict (dict str))
    (format_key command_output_key : str) : str :=
  dict_get_default (dict_get_default previous_formats format_key [])
                   command_output_key [].

(** The two nested loops; the flag is only ever raised. *)
Definition detect_in_format (previous_formats : dict (dict str))
    (format_key : str) (current_format : dict str) (flag : bool) : bool :=
  fold_left
    (fun config_change_detected command_output_key =>
       match dict_get current_format command_output_key with
       | Some output =>
           if negb (compare_command_outputs output
                      (previous_output previous_formats format_key
                                       command_output_key))
           then true else config_change_detected
       | None => config_change_detected
       end)
    (keys current_format) flag.

Definition detect_in_formats (previous_formats current_formats : dict (dict str))
    : bool :=
  fold_left
    (fun config_change_detected format_key =>
       match dict_get current_formats format_key with
       | Some current_format =>
           detect_in_format previous_formats format_key current_format
                            config_change_detected
       | None => config_change_detected
       end)
    (keys current_formats) false.

(** [load_latest_backup] is the storage query: the latest backup of a
    device, the empty dictionary when there is none, [None] when the
    storage raises.  The result of the function is [None] when an exception
    leaves it (a storage error, or a key missing from [device_info]). *)
Definition detect_config_change
    (load_latest_backup : str -> option device_data)
    (device_info : device_data) : option bool :=
  name <- device_name device_info ;;
  latest <- load_latest_backup name ;;
  let previous_formats :=
    get_output_formats (if is_empty latest then empty_data else latest) in
  match previous_formats with
  | [] => Some true
  | _ :: _ =>
      formats <- output_formats device_info ;;
      let current_formats :=
        filter (fun kv => startswith (fst kv) (lit "backup")) formats in
      Some (detect_in_formats previous_formats current_formats)
  end.

(** *** The claim's wording of the comparison *)

(** [sub] occurs in [s]. *)
Definition contains (s sub : str) : Prop :=
  exists pre post, s = pre ++ sub ++ post.

(** The line holds one of the volatile fragments. *)
Definition volatile (line : str) : Prop :=
  exists fragment, In fragment exclusions /\ contains line fragment.

(** Two outputs are equivalent: as many lines in both, and of two
    corresponding lines that differ one at least is volatile. *)
Definition equivalent (output_a output_b : str) : Prop :=
  List.length (split 10 output_a) = List.length (split 10 output_b) /\
  forall i line_a line_b,
    nth_error (split 10 output_a) i = Some line_a ->
    nth_error (split 10 output_b) i = Some line_b ->
    line_a <> line_b -> volatile line_a \/ volatile line_b.

(** ** Exceptions and effects *)

(** The exceptions that the modelled code raises or lets through.  The
    message of a [CustomException] is the fixed part of its text. *)
Inductive exn :=
| CustomException (message : string)
| ClientError (code : str)
| SystemExit (code : option Z)
| KeyboardInterrupt
| PexpectTimeout
| PexpectEOF (line : option str)
| PythonError (name : string).

Inductive result (A : Type) :=
| Ok (a : A)
| Raise (e : exn).

Arguments Ok {A} a.
Arguments Raise {A} e.

(** A computation on a state [S] that returns or raises. *)
Definition M (S A : Type) := S -> result A * S.

Definition ret {S A} (a : A) : M S A := fun s => (Ok a, s).

Definition raise {S A} (e : exn) : M S A := fun s => (Raise e, s).

Definition mbind {S A B} (m : M S A) (k : A -> M S B) : M S B :=
  fun s => match m s with
           | (Ok a, s') => k a s'
           | (Raise e, s') => (Raise e, s')
           end.

Notation "x <~ m ;; k" := (mbind m (fun x => k))
  (at level 61, m at next level, right associativity).

(** A step that cannot touch the state but may raise [e]. *)
Definition lift {S A} (e : exn) (o : option A) : M S A :=
  match o with Some a => ret a | None => raise e end.

(** [netcat.exception_handler], the decorator of [cli_process] and [main]:
    a [CustomException] or a [KeyboardInterrupt] becomes [sys.exit(1)],
    everything else is raised again. *)
Definition exception_handler {S A} (function : M S A) : M S A :=
  fun s => match function s with
           | (Raise (CustomException _), s') => (Raise (SystemExit (Some 1)), s')
           | (Raise KeyboardInterrupt, s') => (Raise (SystemExit (Some 1)), s')
           | other => other
           end.

(** ** netcat_dynamodb.py: the storage write *)

Definition DBT_INFO : str := lit "netcat_info".
Definition DBT_BACKUP : str := lit "netcat_backup".
Definition DBT_STATUS : str := lit "netcat_status".

(** The status document of a job: per device its type and the two flags. *)
Record job_status := {
  status_timestamp : Z;
  device_info_dict : dict (str * bool * bool)
}.

(** What the driver hands to [write]. *)
Inductive document :=
| DeviceDocument (d : device_data)
| StatusDocument (s : job_status).

(** A document read through [.get] of the four device-data keys. *)
Definition as_device_data (doc : document) : device_data :=
  match doc with
  | DeviceDocument d => d
  | StatusDocument s =>
      {| snapshot_timestamp := Some (status_timestamp s);
         device_name := None; device_type := None; output_formats := None |}
  end.

Inductive put_outcome :=
| PutOk
| PutRaises (e : exn).

(** What the surroundings decide: the outcome of the [n]-th call of
    [put_item] and the [n]-th value of [random.random()]. *)
Record environment := {
  put_item_outcome : nat -> put_outcome;
  random : nat -> Q
}.

(** What the program has done to the storage and the clock. *)
Record storage := {
  put_item_calls : nat;
  items : list (str * document);
  sleeps : list Q
}.

(** [random.uniform(a, b)] is [a + (b - a) * random()]. *)
Definition uniform (a b u : Q) : Q := (a + (b - a) * u)%Q.

Definition throttling (code : str) : bool :=
  str_eqb code (lit "ProvisionedThroughputExceededException")
  || str_eqb code (lit "ThrottlingException").

(** The [while attempts: ... else: ...] loop of [write]; [item] is the
    document after the optional compression.  The wire form that [_unfold]
    gives the item is not modelled: the item is stored as it is. *)
Fixpoint write_loop (env : environment) (table_name : str) (item : document)
    (max_sleep_time : Q) (attempts : nat) (w : storage) : result unit * storage :=
  match attempts with
  | O => (Raise (CustomException "Botocore: Unable to write device data document into database table after max attempts"), w)
  | S attempts' =>
      let called :=
        {| put_item_calls := S (put_item_calls w);
           items := items w; sleeps := sleeps w |} in
      match put_item_outcome env (put_item_calls w) with
      | PutOk =>
          (Ok tt, {| put_item_calls := put_item_calls called;
                     items := items w ++ [(table_name, item)];
                     sleeps := sleeps w |})
      | PutRaises (ClientError code) =>
          if negb (throttling code) then
            (Raise (CustomException "Botocore: Unable to write document into table"), called)
          else
            let sleep_time :=
              uniform (1 # 10) max_sleep_time
                      (random env (List.length (sleeps w))) in
            write_loop env table_name item max_sleep_time attempts'
              {| put_item_calls := put_item_calls called;
                 items := items w;
                 sleeps := sleeps w ++ [sleep_time] |}
      | PutRaises e => (Raise e, called)
      end
  end.

(** [if table_name in {DBT_INFO, DBT_BACKUP}: document = compress_device_data(document)] *)
Definition prepare_item (K : blob_codec) (table_name : str) (doc : document)
    : option document :=
  if str_eqb table_name DBT_INFO || str_eqb table_name DBT_BACKUP
  then option_map DeviceDocument (compress_device_data K (as_device_data doc))
  else Some doc.

Definition write_with (K : blob_codec) (env : environment)
    (table_name : str) (doc : document) (max_attempts : nat)
    (max_sleep_time : Q) : M storage unit :=
  item <~ lift (PythonError "UnicodeEncodeError")
               (prepare_item K table_name doc) ;;
  write_loop env table_name item max_sleep_time max_attempts.

(** [write(table_name, document)] with the default arguments. *)
Definition write (K : blob_codec) (env : environment)
    (table_name : str) (doc : document) : M storage unit :=
  write_with K env table_name doc 15 10.

(** The first [k] calls of [put_item] from now on are throttled. *)
Definition throttled_for (env : environment) (w : storage) (k : nat) : Prop :=
  forall i, (i < k)%nat ->
    exists code, put_item_outcome env (put_item_calls w + i) = PutRaises (ClientError code)
                 /\ throttling code = true.

(** An exception of [put_item] that is not a throttling error. *)
Definition not_throttling (e : exn) : Prop :=
  match e with
  | ClientError code => throttling code = false
  | _ => True
  end.

(** A sleep duration lies in [0.1, 10.0]. *)
Definition in_backoff_range (q : Q) : Prop := (1 # 10 <= q /\ q <= 10)%Q.

(** The sleeps that [k] throttled attempts add after [n] earlier sleeps. *)
Definition backoffs (env : environment) (n k : nat) : list Q :=
  map (fun i => uniform (1 # 10) 10 (random env (n + i))) (seq 0 k).

(** A storage that throttles its first three calls and then accepts. *)
Definition throttling_thrice : environment :=
  {| put_item_outcome := fun n =>
       if (n <? 3)%nat
       then PutRaises (ClientError (lit "ThrottlingException"))
       else PutOk;
     random := fun _ => 1 # 2 |}.

Definition fresh_storage : storage :=
  {| put_item_calls := 0; items := []; sleeps := [] |}.

(** ** netcat_backup.py: saving a snapshot *)

(** The nested function [_] of [save_device_data]: the document built for a
    table.  [table_name[7:]] drops the prefix [netcat_]; the comprehension
    keeps the formats whose name starts with what is left, in their order.
    [None] is the [KeyError] of a missing key. *)
Definition document_for (device_data : device_data) (timestamp : Z)
    (table_name : str) :=
  name <- device_name device_data ;;
  type <- device_type device_data ;;
  formats <- output_formats device_data ;;
  Some {| snapshot_timestamp := Some timestamp;
          device_name := Some name;
          device_type := Some type;
          output_formats := Some
            (filter (fun kv => startswith (fst kv) (skipn 7 table_name))
                    formats) |}.

Definition save_to_table (K : blob_codec) (env : environment)
    (device_data : device_data) (timestamp : Z) (table_name : str)
    : M storage unit :=
  doc <~ lift (PythonError "KeyError")
              (document_for device_data timestamp table_name) ;;
  write K env table_name (DeviceDocument doc).

Definition save_device_data (K : blob_codec) (env : environment)
    (device_data : device_data) (timestamp : Z)
    (config_change force_backup : bool) : M storage unit :=
  _ <~ (if config_change || force_backup
        then save_to_table K env device_data timestamp DBT_BACKUP
        else ret tt) ;;
  save_to_table K env device_data timestamp DBT_INFO.

(** An entry of the inventory file. *)
Module Info.
Record t := {
  device_name : str;
  device_type : str;
  auth : str;
  username : str;
  password : str
}.
End Info.

(** [get_device_data]: the adapter is chosen by the prefix of the device
    type; [session] stands for opening the CLI session of that adapter and
    reading the snapshot, which returns it or raises. *)
Definition get_device_data (session : Info.t -> result device_data)
    (device_info : Info.t) : result device_data :=
  if startswith (Info.device_type device_info) (lit "paloalto")
  then session device_info
  else if startswith (Info.device_type device_info) (lit "cisco")
  then session device_info
  else if startswith (Info.device_type device_info) (lit "f5")
  then session device_info
  else Raise (CustomException "Unsupported device type").

(** [cli_process], under its decorator. *)
Definition cli_process (K : blob_codec) (env : environment)
    (load_latest_backup : str -> option device_data)
    (session : Info.t -> result device_data)
    (timestamp : Z) (force_backup test_run : bool)
    (device_info : Info.t) : M storage (list str) :=
  exception_handler
    (device_data <~ (fun w => (get_device_data session device_info, w)) ;;
     _ <~ (if negb test_run then
             config_change <~ lift (PythonError "Exception")
                                (detect_config_change load_latest_backup
                                                      device_data) ;;
             save_device_data K env device_data timestamp config_change
                              force_backup
           else ret tt) ;;
     ret [Info.device_name device_info]).



Definition sample_device : Info.t :=
  {| Info.device_name := lit "rtr1";
     Info.device_type := lit "cisco_router";
     Info.auth := lit "password";
     Info.username := lit "netcat";
     Info.password := lit "secret" |}.

(** A snapshot as a session builds it (its own time stamp is 0), with a
    format that is neither a backup nor an info format. *)
Definition snapshot_with_other_format : device_data :=
  {| snapshot_timestamp := Some 0;
     device_name := Some (lit "rtr1");
     device_type := Some (lit "cisco_router");
     output_formats := Some
       [ (lit "backup_running", [ (lit "show running-config", lit "hostname rtr1") ]);
         (lit "info", [ (lit "show clock", lit "12:00") ]);
         (lit "status", [ (lit "show environment", lit "ok") ]) ] |}.

(** A stored backup that holds no output formats, and a snapshot that
    holds no backup formats. *)
Definition backup_without_formats : device_data :=
  {| snapshot_timestamp := Some 1599990000;
     device_name := Some (lit "rtr1");
     device_type := Some (lit "cisco_router");
     output_formats := Some [] |}.

Definition snapshot_without_backup : device_data :=
  {| snapshot_timestamp := Some 0;
     device_name := Some (lit "rtr1");
     device_type := Some (lit "cisco_router");
     output_formats := Some [ (lit "info", [ (lit "show clock", lit "12:00") ]) ] |}.




(** ** Lists of names: [sorted], [in] and set difference *)

(** The order of Python strings: lexicographic on code points. *)
Fixpoint str_leb (a b : str) : bool :=
  match a, b with
  | [], _ => true
  | _ :: _, [] => false
  | x :: a', y :: b' =>
      if x <? y then true else if y <? x then false else str_leb a' b'
  end.

Fixpoint insert_sorted (x : str) (l : list str) : list str :=
  match l with
  | [] => [x]
  | y :: r => if str_leb x y then x :: l else y :: insert_sorted x r
  end.

(** [sorted(l)]: the order is total and equal strings are identical, so
    every sorting algorithm returns the same list. *)
Definition sorted (l : list str) : list str := fold_right insert_sorted [] l.

(** [x in l] *)
Definition mem (x : str) (l : list str) : bool := existsb (str_eqb x) l.

(** [set(l)], as a list without repetition. *)
Fixpoint to_set (l : list str) : list str :=
  match l with
  | [] => []
  | x :: r => if mem x r then to_set r else x :: to_set r
  end.

(** [set(a) - set(b)] *)
Definition set_difference (a b : list str) : list str :=
  filter (fun x => negb (mem x (to_set b))) (to_set a).

(** [s.strip(",")] *)
Fixpoint lstrip (c : Z) (s : str) : str :=
  match s with
  | [] => []
  | x :: r => if x =? c then lstrip c r else s
  end.

Definition strip (c : Z) (s : str) : str := rev (lstrip c (rev (lstrip c s))).

(** ** netcat.py: selection of devices and the fleet runner *)

Definition SUPPORTED_DEVICE_TYPES : list str :=
  [lit "paloalto"; lit "f5"; lit "cisco_nexus"; lit "cisco_router";
   lit "cisco_switch"; lit "cisco_asa"; lit "cisco_asa_mc"].

(** The parsed command line. *)
Module Args.
Record t := {
  debug : bool;
  single_process : bool;
  force_backup : bool;
  test_run : bool;
  all : bool;
  group : option str;
  device : option (list str);
  regexp : option str
}.
End Args.

(** What [open] and [json.load] make of the inventory file. *)
Inductive inventory_file :=
| FileUnreadable
| FileNotJson
| FileHolds (info_list : list Info.t).

Definition read_info_list_file (file : inventory_file) : list Info.t :=
  match file with
  | FileHolds info_list => info_list
  | FileUnreadable => []
  | FileNotJson => []
  end.

(** The comprehension over [re.search]; [re_search] is [None] when the
    pattern does not compile. *)
Fixpoint select_by_regexp (re_search : str -> str -> option bool)
    (pattern : str) (device_info_list : list Info.t) : option (list str) :=
  match device_info_list with
  | [] => Some []
  | info :: r =>
      found <- re_search pattern (Info.device_name info) ;;
      rest <- select_by_regexp re_search pattern r ;;
      Some (if found then Info.device_name info :: rest else rest)
  end.

(** The four tests are taken in turn; one that fails falls through to the
    next.  A group that was not given is not among the supported types, an
    option that was not given is not true. *)
Definition get_requested_device_name_list
    (re_search : str -> str -> option bool)
    (device_info_list : list Info.t) (args : Args.t) : list str :=
  if Args.all args then map Info.device_name device_info_list
  else if match Args.group args with
          | Some g => mem g SUPPORTED_DEVICE_TYPES
          | None => false
          end
  then
    map Info.device_name
        (filter (fun info =>
                   match Args.group args with
                   | Some g => str_eqb (Info.device_type info) g
                   | None => false
                   end)
                device_info_list)
  else
    match Args.device args with
    | Some (d :: ds) =>
        map Info.device_name
            (filter (fun info =>
                       mem (Info.device_name info) (map (strip 44) (d :: ds)))
                    device_info_list)
    | _ =>
        match Args.regexp args with
        | Some (c :: pattern) =>
            match select_by_regexp re_search (c :: pattern) device_info_list with
            | Some names => names
            | None => []
            end
        | _ => []
        end
    end.

Section Runner.
Context {S A B : Type}.
Variable data_processing_function : A -> M S (list B).

(** The comprehension of the single-process mode: the first exception
    leaves it. *)
Fixpoint run_in_process (data_list : list A) : M S (list (list B)) :=
  match data_list with
  | [] => ret []
  | x :: r =>
      y <~ data_processing_function x ;;
      ys <~ run_in_process r ;;
      ret (y :: ys)
  end.

(** The futures of the process pool: every call returns or raises on its
    own.  The calls are taken one after the other; they touch the storage
    under different device names. *)
Fixpoint run_in_pool (data_list : list A) (s : S) : list (result (list B)) * S :=
  match data_list with
  | [] => ([], s)
  | x :: r =>
      let (y, s1) := data_processing_function x s in
      let (ys, s2) := run_in_pool r s1 in
      (y :: ys, s2)
  end.

(** [_.result() for _ in process_pool if not _.exception() and _.result()] *)
Fixpoint results_of (futures : list (result (list B))) : list (list B) :=
  match futures with
  | [] => []
  | Ok (y :: ys) :: r => (y :: ys) :: results_of r
  | _ :: r => results_of r
  end.

Definition execute_data_processing_function (single_process_mode : bool)
    (data_list : list A) : M S (list B) :=
  match data_list with
  | [] => ret []
  | _ :: _ =>
      if single_process_mode then
        results <~ run_in_process data_list ;;
        ret (List.concat results)
      else
        fun s =>
          let (futures, s') := run_in_pool data_list s in
          (Ok (List.concat (results_of futures)), s')
  end.
End Runner.

(** ** netcat_backup.py: the driver *)

(** The dictionary comprehension of [save_final_status]: an entry per
    inventory record with a non-empty name; a name met again is rebound. *)
Definition final_device_info_dict (device_info_list : list Info.t)
    (successful_device_name_list failed_device_name_list : list str)
    : dict (str * bool * bool) :=
  fold_left
    (fun acc info =>
       match Info.device_name info with
       | [] => acc
       | name =>
           dict_set acc name
             (Info.device_type info,
              mem name failed_device_name_list,
              mem name successful_device_name_list)
       end)
    device_info_list [].

Definition save_final_status (K : blob_codec) (env : environment)
    (device_info_list : list Info.t) (timestamp : Z)
    (successful_device_name_list failed_device_name_list : list str)
    : M storage unit :=
  write K env DBT_STATUS
    (StatusDocument
       {| status_timestamp := timestamp;
          device_info_dict :=
            final_device_info_dict device_info_list
              successful_device_name_list failed_device_name_list |}).

(** What a run of the driver meets outside the program. *)
Record surroundings := {
  storage_env : environment;
  load_latest_backup : str -> option device_data;
  session : Info.t -> result device_data;
  create_tables : result unit;
  inventory : inventory_file;
  re_search : str -> str -> option bool;
  clock : Z
}.

(** The body of [main] up to the three lists of device names: requested,
    successful and failed. *)
Definition run_backup (K : blob_codec) (o : surroundings) (arguments : Args.t)
    : M storage (list Info.t * (list str * list str * list str)) :=
  _ <~ (fun w => (create_tables o, w)) ;;
  match read_info_list_file (inventory o) with
  | [] => raise (SystemExit None)
  | device_info_list =>
      match sorted (get_requested_device_name_list (re_search o)
                      device_info_list arguments) with
      | [] => raise (SystemExit None)
      | requested_device_name_list =>
          names <~ execute_data_processing_function
                     (cli_process K (storage_env o) (load_latest_backup o)
                        (session o) (clock o)
                        (Args.force_backup arguments) (Args.test_run arguments))
                     (Args.single_process arguments)
                     (filter (fun info =>
                                mem (Info.device_name info)
                                    requested_device_name_list)
                             device_info_list) ;;
          let successful_device_name_list := sorted names in
          let failed_device_name_list :=
            sorted (set_difference requested_device_name_list
                                   successful_device_name_list) in
          ret (device_info_list,
               (requested_device_name_list, successful_device_name_list,
                failed_device_name_list))
      end
  end.

(** [main], under its decorator.  The reports to the log are left out. *)
Definition main (K : blob_codec) (o : surroundings) (arguments : Args.t)
    : M storage Z :=
  exception_handler
    (run <~ run_backup K o arguments ;;
     let '(device_info_list, (_, successful, failed)) := run in
     _ <~ (if negb (Args.test_run arguments)
           then save_final_status K (storage_env o) device_info_list (clock o)
                                  successful failed
           else ret tt) ;;
     ret 0).

(** The exit status of [sys.exit(main())]: the value returned, the
    argument of [sys.exit] (none counts as 0), and 1 after an exception
    that nothing catches. *)
Definition exit_status (r : result Z) : Z :=
  match r with
  | Ok n => n
  | Raise (SystemExit None) => 0
  | Raise (SystemExit (Some n)) => n
  | Raise _ => 1
  end.

Definition backup_program (K : blob_codec) (o : surroundings)
    (arguments : Args.t) (w : storage) : Z :=
  exit_status (fst (main K o arguments w)).

(** The two lists split the requested names: as sets their union is the
    requested list and they have no name in common. *)
Definition partition_of (requested successful failed : list str) : Prop :=
  (forall name, In name requested <-> In name successful \/ In name failed) /\
  (forall name, ~ (In name successful /\ In name failed)).

Definition select_all (single : bool) (test : bool) : Args.t :=
  {| Args.debug := false; Args.single_process := single;
     Args.force_backup := false; Args.test_run := test;
     Args.all := true; Args.group := None; Args.device := None;
     Args.regexp := None |}.

Definition second_device : Info.t :=
  {| Info.device_name := lit "fw1";
     Info.device_type := lit "paloalto";
     Info.auth := lit "rsa";
     Info.username := lit "netcat";
     Info.password := lit "" |}.

(** Two devices in the inventory; the session of [fw1] fails. *)
Definition sample_surroundings (file : inventory_file) : surroundings :=
  {| storage_env := throttling_thrice;
     load_latest_backup := fun _ => Some empty_data;
     session := fun info =>
       if str_eqb (Info.device_name info) (lit "rtr1")
       then Ok sample_snapshot
       else Raise (CustomException "Connection timeout");
     create_tables := Ok tt;
     inventory := file;
     re_search := fun _ _ => Some true;
     clock := 1600000000 |}.

(** The same surroundings with a storage that takes the documents of the
    devices and refuses the sixth call of [put_item], the one that carries
    the job status. *)
Definition status_refusing_surroundings : surroundings :=
  {| storage_env :=
       {| put_item_outcome := fun n =>
            if (n <? 3)%nat
            then PutRaises (ClientError (lit "ThrottlingException"))
            else if (n =? 5)%nat
            then PutRaises (ClientError (lit "AccessDeniedException"))
            else PutOk;
          random := fun _ => 1 # 2 |};
     load_latest_backup := fun _ => Some empty_data;
     session := fun info =>
       if str_eqb (Info.device_name info) (lit "rtr1")
       then Ok sample_snapshot
       else Raise (CustomException "Connection timeout");
     create_tables := Ok tt;
     inventory := FileHolds [sample_device; second_device];
     re_search := fun _ _ => Some true;
     clock := 1600000000 |}.

(** ** netcat_cli.py: opening the CLI session *)

(** What the next call of [expect] meets: the index of the pattern that
    matched, a time-out, or the end of the stream with the sixth line of
    its message (if there is one). *)
Inductive expect_result :=
| Matched (index : Z)
| TimedOut
| EndOfFile (line : option str).

(** What the session does to its surroundings. *)
Inductive action :=
| Spawn (command : str)
| SendLine (line : str)
| Sleep (seconds : Z).

Record terminal := {
  script : list expect_result;
  actions : list action
}.

Definition act (a : action) : M terminal unit :=
  fun t => (Ok tt, {| script := script t; actions := actions t ++ [a] |}).

(** [self.cli.expect(patterns)]; a device that says nothing more times out. *)
Definition expect (patterns : list str) : M terminal Z :=
  fun t =>
    match script t with
    | [] => (Raise PexpectTimeout, t)
    | Matched index :: r => (Ok index, {| script := r; actions := actions t |})
    | TimedOut :: r => (Raise PexpectTimeout, {| script := r; actions := actions t |})
    | EndOfFile line :: r =>
        (Raise (PexpectEOF line), {| script := r; actions := actions t |})
    end.

(** The fields of [NetCatCliAccess] that [open_cli] reads. *)
Module Cli.
Record t := {
  username : str;
  password : str;
  auth : str;
  name : str;
  cli_prompt : str;
  password_prompt : str
}.
End Cli.

(** [netcat_cli.exception_handler], the decorator of [open_cli]. *)
Definition cli_exception_handler {A} (function : M terminal A) : M terminal A :=
  fun t =>
    match function t with
    | (Raise (PexpectEOF line), t') =>
        match line with
        | None => (Raise (PythonError "IndexError"), t')
        | Some error_message =>
            if find error_message (lit "Host key verification failed") >=? 0
            then (Raise (CustomException "Device identity verification failed"), t')
            else if find error_message (lit "Authorization failed") >=? 0
            then (Raise (CustomException "Authorization failed"), t')
            else if find error_message (lit "Connection timed out") >=? 0
            then (Raise (CustomException "Connection timeout"), t')
            else (Raise (CustomException "Expect error"), t')
        end
    | (Raise PexpectTimeout, t') =>
        (Raise (CustomException "Connection timeout"), t')
    | other => other
    end.

Definition known_hosts_question : str :=
  lit "Are you sure you want to continue connecting (yes/no)?".

(** The loop [for second_password_attempt in [False, True]]. *)
Fixpoint password_attempts (self : Cli.t) (attempts : list bool)
    : M terminal unit :=
  match attempts with
  | [] => ret tt
  | second_password_attempt :: rest =>
      _ <~ act (SendLine (Cli.password self)) ;;
      expect_output_index <~
        expect [Cli.cli_prompt self; Cli.password_prompt self] ;;
      if expect_output_index =? 0 then ret tt
      else if (expect_output_index =? 1) && negb second_password_attempt then
        _ <~ act (Sleep 5) ;;
        password_attempts self rest
      else if (expect_output_index =? 1) && second_password_attempt then
        raise (CustomException "Cannot login with supplied credentials")
      else
        raise (CustomException "Problem with expect when logging to device")
  end.

(** The password branch up to the loop: spawn, first prompt, host key. *)
Definition password_connect (self : Cli.t) : M terminal unit :=
  _ <~ act (Spawn (lit "ssh -o PubkeyAuthentication=no -l "
                   ++ Cli.username self ++ lit " " ++ Cli.name self)) ;;
  expect_output_index <~
    expect [Cli.password_prompt self; known_hosts_question;
            lit "Connection refused"] ;;
  _ <~ (if expect_output_index =? 1 then
          _ <~ act (SendLine (lit "yes")) ;;
          _ <~ expect [Cli.password_prompt self] ;;
          ret tt
        else ret tt) ;;
  if expect_output_index =? 2
  then raise (CustomException "Connection refused by device")
  else ret tt.

(** The loop [for known_hosts_check_happened_already in [False, True]]. *)
Fixpoint rsa_attempts (self : Cli.t) (attempts : list bool) : M terminal unit :=
  match attempts with
  | [] => ret tt
  | known_hosts_check_happened_already :: rest =>
      expect_output_index <~
        expect [Cli.cli_prompt self; known_hosts_question;
                Cli.password_prompt self; lit "Connection refused"] ;;
      if expect_output_index =? 0 then ret tt
      else if (expect_output_index =? 1)
              && negb known_hosts_check_happened_already then
        _ <~ act (SendLine (lit "yes")) ;;
        rsa_attempts self rest
      else if expect_output_index =? 2 then
        raise (CustomException "RSA authentication error, key may not be valid")
      else if expect_output_index =? 3 then
        raise (CustomException "Connection refused by device")
      else
        raise (CustomException "Problem with expect when logging to device")
  end.

Definition open_cli (self : Cli.t) : M terminal unit :=
  cli_exception_handler
    (if str_eqb (Cli.auth self) (lit "password") then
       _ <~ password_connect self ;;
       password_attempts self [false; true]
     else if str_eqb (Cli.auth self) (lit "rsa") then
       _ <~ act (Spawn (lit "ssh -o PubkeyAuthentication=yes -l "
                        ++ Cli.username self ++ lit " " ++ Cli.name self)) ;;
       rsa_attempts self [false; true]
     else raise (CustomException "Unknown authentication type")).

(** The terminal after [extra] actions that used up the script to [rest]. *)
Definition advanced (t : terminal) (rest : list expect_result)
    (extra : list action) : terminal :=
  {| script := rest; actions := actions t ++ extra |}.

Definition sample_cli : Cli.t :=
  {| Cli.username := lit "netcat";
     Cli.password := lit "secret";
     Cli.auth := lit "password";
     Cli.name := lit "rtr1";
     Cli.cli_prompt := lit "RTR1#";
     Cli.password_prompt := lit "[Pp]assword: " |}.

(** The device asks for the password, asks again, then shows its prompt. *)
Definition retry_then_prompt : terminal :=
  {| script := [Matched 0; Matched 1; Matched 0]; actions := [] |}.


(** A running configuration that opens with a time line, and the snapshot
    of [rtr1] taken at a given time. *)
Definition running_config (time : str) : str :=
  lit "!Time: " ++ time ++ [10] ++ lit "hostname rtr1" ++ [10]
  ++ lit "interface Gi0/1" ++ [10].

Definition snapshot_at (time : str) : device_data :=
  {| snapshot_timestamp := Some 0;
     device_name := Some (lit "rtr1");
     device_type := Some (lit "cisco_router");
     output_formats := Some
       [ (lit "backup_running",
           [ (lit "show running-config", running_config time) ]);
         (lit "info", [ (lit "show clock", time ++ [10]) ]) ] |}.

(** The tables written by the process of [rtr1] at 12:00, given the latest
    stored backup. *)
Definition tables_written (latest : device_data) (force_backup : bool)
    : list str :=
  map fst
    (items (snd (cli_process hex_codec throttling_thrice
                   (fun _ => Some latest)
                   (fun _ => Ok (snapshot_at (lit "12:00")))
                   1600000000 force_backup false sample_device
                   fresh_storage))).
(** * Further definitions, for the properties beyond the claims *)

From Stdlib Require DecimalZ DecimalPos.

#[local] Set Warnings "-register-all".

(** A device of a type that no adapter serves. *)
Definition unsupported_device : Info.t :=
  {| Info.device_name := lit "sw9";
     Info.device_type := lit "juniper";
     Info.auth := lit "password";
     Info.username := lit "netcat";
     Info.password := lit "secret" |}.

(** The command line that [open_cli] spawns. *)
Definition ssh_command (pubkey : str) (self : Cli.t) : str :=
  lit "ssh -o PubkeyAuthentication=" ++ pubkey ++ lit " -l "
  ++ Cli.username self ++ lit " " ++ Cli.name self.

(** An inventory selected by a pattern. *)
Definition select_regexp (pattern : str) : Args.t :=
  {| Args.debug := false; Args.single_process := false;
     Args.force_backup := false; Args.test_run := false;
     Args.all := false; Args.group := None; Args.device := None;
     Args.regexp := Some pattern |}.

(** Surroundings in which no pattern compiles. *)
Definition no_pattern_compiles : surroundings :=
  {| storage_env := throttling_thrice;
     load_latest_backup := fun _ => Some empty_data;
     session := fun _ => Ok sample_snapshot;
     create_tables := Ok tt;
     inventory := FileHolds [sample_device; second_device];
     re_search := fun _ _ => None;
     clock := 1600000000 |}.

Definition sample_rsa_cli : Cli.t :=
  {| Cli.username := lit "netcat";
     Cli.password := lit "";
     Cli.auth := lit "rsa";
     Cli.name := lit "fw1";
     Cli.cli_prompt := lit "netcat@FW1> ";
     Cli.password_prompt := lit "Password: " |}.



(** The stored backup of [snapshot_at], and the same with a command that
    the catalog no longer has. *)
Definition stored_backup (time : str) : device_data :=
  {| snapshot_timestamp := Some 1599990000;
     device_name := Some (lit "rtr1");
     device_type := Some (lit "cisco_router");
     output_formats := Some
       [ (lit "backup_running",
           [ (lit "show running-config", running_config time) ]) ] |}.

Definition stored_backup_with_more (time : str) : device_data :=
  {| snapshot_timestamp := Some 1599990000;
     device_name := Some (lit "rtr1");
     device_type := Some (lit "cisco_router");
     output_formats := Some
       [ (lit "backup_running",
           [ (lit "show running-config", running_config time);
             (lit "show startup-config", lit "hostname old") ]);
         (lit "backup_startup",
           [ (lit "show startup-config", lit "hostname old") ]) ] |}.


(** ** netcat_dynamodb.py: the low-level attribute format *)

(** The values a document is built from.  [JOther] is a value of a type
    that [_unfold] has no branch for, a float for one. *)
Inductive json :=
| JDict (fields : list (str * json))
| JList (elements : list json)
| JStr (s : str)
| JInt (n : Z)
| JBytes (b : bytes)
| JBool (b : bool)
| JNone
| JOther.

(** An attribute value of the low-level interface: a dictionary with the
    one key that names the type. *)
Module Attribute.
Inductive t :=
| M (fields : list (str * t))
| L (elements : list t)
| S (s : str)
| N (digits : str)
| B (b : bytes)
| BOOL (b : bool)
| NULL (b : bool).
End Attribute.

(** What [_unfold] returns and [_fold] takes: a dictionary or a list of
    attribute values. *)
Inductive structure :=
| Fields (d : dict Attribute.t)
| Elements (l : list Attribute.t).

(** The built-in [str] on integers and [int] on strings ([None] is
    [ValueError]). *)
Record number_format := {
  str_of_int : Z -> str;
  int_of_str : str -> option Z
}.

Definition number_format_ok (F : number_format) : Prop :=
  forall n, int_of_str F (str_of_int F n) = Some n.

Section Loops.
Context {A B : Type}.
Variable f : A -> option B.

(** [for item in old_struct]: what has a branch is appended, the rest is
    passed over. *)
Fixpoint append_known (l : list A) : list B :=
  match l with
  | [] => []
  | x :: r =>
      match f x with
      | Some y => y :: append_known r
      | None => append_known r
      end
  end.

(** [for key in old_struct]: what has a branch is bound to its key. *)
Definition bind_known (d : dict A) : dict B :=
  fold_left (fun acc kv =>
               match f (snd kv) with
               | Some y => dict_set acc (fst kv) y
               | None => acc
               end) d [].

(** A list comprehension whose expression may raise. *)
Fixpoint traverse (l : list A) : option (list B) :=
  match l with
  | [] => Some []
  | x :: r =>
      y <- f x ;;
      ys <- traverse r ;;
      Some (y :: ys)
  end.
End Loops.

(** [f] carries [x] to some [y] and [g] carries it back. *)
Definition there_and_back {A B} (f : A -> option B) (g : B -> option A)
    (x : A) : Prop :=
  exists y, f x = Some y /\ g y = Some x.

(** The chain of [elif type(item) is ...] of [_unfold], the same in its
    two loops; [None] when no branch is taken. *)
Fixpoint unfold_item (F : number_format) (item : json) : option Attribute.t :=
  match item with
  | JDict fields => Some (Attribute.M (bind_known (unfold_item F) fields))
  | JList elements => Some (Attribute.L (append_known (unfold_item F) elements))
  | JStr s => Some (Attribute.S s)
  | JInt n => Some (Attribute.N (str_of_int F n))
  | JBytes b => Some (Attribute.B b)
  | JBool b => Some (Attribute.BOOL b)
  | JNone => Some (Attribute.NULL true)
  | JOther => None
  end.

(** [_unfold]; [None] is the [UnboundLocalError] of [return new_struct]
    for a value that is neither a list nor a dictionary. *)
Definition _unfold (F : number_format) (old_struct : json) : option structure :=
  match old_struct with
  | JList elements => Some (Elements (append_known (unfold_item F) elements))
  | JDict fields => Some (Fields (bind_known (unfold_item F) fields))
  | _ => None
  end.

(** The expression of the two comprehensions of [_fold]: [_fold] itself
    under ["M"] and ["L"], [_trl] and [_trd] under the other keys. *)
Fixpoint fold_item (F : number_format) (x : Attribute.t) : option json :=
  match x with
  | Attribute.M fields =>
      d <- dict_rebuild Some (fold_item F) fields ;;
      Some (JDict d)
  | Attribute.L elements =>
      l <- traverse (fold_item F) elements ;;
      Some (JList l)
  | Attribute.N digits =>
      n <- int_of_str F digits ;;
      Some (JInt n)
  | Attribute.NULL _ => Some JNone
  | Attribute.S s => Some (JStr s)
  | Attribute.B b => Some (JBytes b)
  | Attribute.BOOL b => Some (JBool b)
  end.

Definition _fold (F : number_format) (z : structure) : option json :=
  match z with
  | Elements l =>
      l' <- traverse (fold_item F) l ;;
      Some (JList l')
  | Fields d =>
      d' <- dict_rebuild Some (fold_item F) d ;;
      Some (JDict d')
  end.

(** A value that the attribute format can carry: no value of another type
    in it; the keys of a dictionary are distinct, as in any dictionary. *)
Fixpoint storable (v : json) : bool :=
  match v with
  | JDict fields =>
      nodupb (keys fields) && forallb (fun kv => storable (snd kv)) fields
  | JList elements => forallb storable elements
  | JOther => false
  | _ => true
  end.

Definition known (v : json) : bool :=
  match v with JOther => false | _ => true end.

(** Decimal notation, as [str] writes an integer; [int] reads it back (it
    also takes white space around the digits and underscores between
    them, which [str] never writes). *)
Fixpoint digits_of (u : Decimal.uint) : str :=
  match u with
  | Decimal.Nil => []
  | Decimal.D0 r => 48 :: digits_of r
  | Decimal.D1 r => 49 :: digits_of r
  | Decimal.D2 r => 50 :: digits_of r
  | Decimal.D3 r => 51 :: digits_of r
  | Decimal.D4 r => 52 :: digits_of r
  | Decimal.D5 r => 53 :: digits_of r
  | Decimal.D6 r => 54 :: digits_of r
  | Decimal.D7 r => 55 :: digits_of r
  | Decimal.D8 r => 56 :: digits_of r
  | Decimal.D9 r => 57 :: digits_of r
  end.

Fixpoint uint_of (s : str) : option Decimal.uint :=
  match s with
  | [] => Some Decimal.Nil
  | c :: r =>
      u <- uint_of r ;;
      if c =? 48 then Some (Decimal.D0 u)
      else if c =? 49 then Some (Decimal.D1 u)
      else if c =? 50 then Some (Decimal.D2 u)
      else if c =? 51 then Some (Decimal.D3 u)
      else if c =? 52 then Some (Decimal.D4 u)
      else if c =? 53 then Some (Decimal.D5 u)
      else if c =? 54 then Some (Decimal.D6 u)
      else if c =? 55 then Some (Decimal.D7 u)
      else if c =? 56 then Some (Decimal.D8 u)
      else if c =? 57 then Some (Decimal.D9 u)
      else None
  end.

Definition decimal : number_format :=
  {| str_of_int := fun n =>
       match Z.to_int n with
       | Decimal.Pos u => digits_of u
       | Decimal.Neg u => 45 :: digits_of u
       end;
     int_of_str := fun s =>
       match s with
       | [] => None
       | c :: r =>
           if c =? 45 then
             match r with
             | [] => None
             | _ => u <- uint_of r ;; Some (- Z.of_uint u)
             end
           else if c =? 43 then
             match r with
             | [] => None
             | _ => u <- uint_of r ;; Some (Z.of_uint u)
             end
           else u <- uint_of s ;; Some (Z.of_uint u)
       end |}.

(** A status document as [save_final_status] builds it, and the same
    with a float in it. *)
Definition sample_status_document : json :=
  JDict [ (lit "snapshot_name", JStr (lit "info_status"));
          (lit "snapshot_timestamp", JInt 1600000000);
          (lit "device_info_dict",
            JDict [ (lit "rtr1",
                      JDict [ (lit "device_type", JStr (lit "cisco_router"));
                              (lit "failed", JBool false);
                              (lit "successful", JBool true) ]) ]) ].

(** ** netcat_cli.py: reading the snapshot over the session *)

(** An entry of an adapter's catalog of output formats. *)
Module Format.
Record t := {
  format_name : str;
  output_start : Z;
  output_end : Z;
  pre_commands : list str;
  commands : list str;
  post_commands : list str
}.
End Format.

(** The session while commands are read: the terminal, and the text that
    the device prints before each match of [expect], which is what
    [self.cli.before] holds after it. *)
Record console := {
  term : terminal;
  printed : list str
}.

Definition on_terminal {A} (m : M terminal A) : M console A :=
  fun c => let (r, t) := m (term c) in (r, {| term := t; printed := printed c |}).

(** [str(self.cli.before)] after a match; a device with nothing more to
    print has printed nothing. *)
Definition before : M console str :=
  fun c => match printed c with
           | [] => (Ok [], c)
           | text :: r => (Ok text, {| term := term c; printed := r |})
           end.

(** [s.split("\r\n")] *)
Fixpoint split_crlf (s : str) : list str :=
  match s with
  | [] => [[]]
  | c :: r =>
      match r with
      | d :: r' =>
          if (c =? 13) && (d =? 10) then [] :: split_crlf r'
          else match split_crlf r with
               | cur :: rest => (c :: cur) :: rest
               | [] => [[c]]
               end
      | [] => [[c]]
      end
  end.

(** [sep.join(l)] *)
Fixpoint join (sep : str) (l : list str) : str :=
  match l with
  | [] => []
  | x :: r =>
      match r with
      | [] => x
      | _ :: _ => x ++ sep ++ join sep r
      end
  end.

(** [l[start:stop]] for integer bounds: a negative bound counts from the
    end, and both are clipped to the list. *)
Definition slice_bound (n i : Z) : Z :=
  if i <? 0 then Z.max (i + n) 0 else Z.min i n.

Definition py_slice {A} (start stop : Z) (l : list A) : list A :=
  let n := Z.of_nat (List.length l) in
  firstn (Z.to_nat (slice_bound n stop - slice_bound n start))
         (skipn (Z.to_nat (slice_bound n start)) l).

Module NetCatCliAccess.

(** [send_command], under the decorator of netcat_cli.py. *)
Definition send_command (self : Cli.t) (command : str)
    (alternate_expect_string : option str) : M console str :=
  _ <~ on_terminal
         (cli_exception_handler
            (_ <~ act (SendLine command) ;;
             _ <~ match alternate_expect_string with
                  | Some (c :: s) => expect [c :: s]
                  | _ => expect [Cli.cli_prompt self]
                  end ;;
             ret tt)) ;;
  before.

(** The loops over [pre_commands] and [post_commands]. *)
Fixpoint send_each (self : Cli.t) (commands : list str) : M console unit :=
  match commands with
  | [] => ret tt
  | command :: r =>
      _ <~ send_command self command None ;;
      send_each self r
  end.

(** What is kept of the output of a command. *)
Definition kept (output_format : Format.t) (output : str) : str :=
  join [10] (py_slice (Format.output_start output_format)
                      (Format.output_end output_format)
                      (split_crlf output))
  ++ [10].

(** The loop over [commands]. *)
Fixpoint read_each (self : Cli.t) (output_format : Format.t)
    (commands : list str) (output_format_section : dict str)
    : M console (dict str) :=
  match commands with
  | [] => ret output_format_section
  | command :: r =>
      output <~ send_command self command None ;;
      read_each self output_format r
        (dict_set output_format_section command (kept output_format output))
  end.

(** The loop over [self.output_formats]. *)
Fixpoint read_formats (self : Cli.t) (output_formats : list Format.t)
    (formats : dict (dict str)) : M console (dict (dict str)) :=
  match output_formats with
  | [] => ret formats
  | output_format :: r =>
      _ <~ send_each self (Format.pre_commands output_format) ;;
      output_format_section <~
        read_each self output_format (Format.commands output_format) [] ;;
      let formats' :=
        dict_set formats (Format.format_name output_format)
                 output_format_section in
      _ <~ send_each self (Format.post_commands output_format) ;;
      read_formats self r formats'
  end.

(** [get_device_data] of the adapter whose time stamp, type and catalog
    are given. *)
Definition get_device_data (self : Cli.t) (self_timestamp : Z)
    (self_type : str) (self_output_formats : list Format.t)
    : M console device_data :=
  formats <~ read_formats self self_output_formats [] ;;
  ret {| snapshot_timestamp := Some self_timestamp;
         device_name := Some (Cli.name self);
         device_type := Some self_type;
         output_formats := Some formats |}.

End NetCatCliAccess.

(** The lines of a catalog in the order of its entries. *)
Definition catalog_lines (output_formats : list Format.t) : list str :=
  flat_map (fun output_format =>
              Format.pre_commands output_format
              ++ Format.commands output_format
              ++ Format.post_commands output_format)
           output_formats.

(** The exceptions that the decorator of netcat_cli.py lets out. *)
Definition from_decorator (e : exn) : Prop :=
  (exists message, e = CustomException message) \/ e = PythonError "IndexError".

(** An outcome after which the lines sent are a first part of [lines], all
    of them when it is a value, and an exception is one of the decorator. *)
Definition sent_of {A} (lines : list str) (c : console)
    (outcome : result A * console) : Prop :=
  exists done rest,
    lines = done ++ rest
    /\ actions (term (snd outcome)) = actions (term c) ++ map SendLine done
    /\ match fst outcome with
       | Ok _ => rest = []
       | Raise e => from_decorator e
       end.

(** What a section of the snapshot is for a catalog: the section of an
    entry of that name, with its commands as keys and texts that end with
    a new line. *)
Definition section_of (output_formats : list Format.t)
    (entry : str * dict str) : Prop :=
  exists output_format,
    In output_format output_formats
    /\ Format.format_name output_format = fst entry
    /\ (forall k, In k (keys (snd entry))
                  <-> In k (Format.commands output_format))
    /\ (forall k v, In (k, v) (snd entry) -> exists text, v = text ++ [10]).

(** Part of the catalog of the multi-context firewall, and a device that
    answers five commands. *)
Definition sample_catalog : list Format.t :=
  [ {| Format.format_name := lit "backup_running";
       Format.output_start := 4;
       Format.output_end := -1;
       Format.pre_commands := [lit "changeto system"];
       Format.commands := [lit "show running-config"];
       Format.post_commands := [] |};
    {| Format.format_name := lit "info";
       Format.output_start := 1;
       Format.output_end := -1;
       Format.pre_commands := [lit "changeto system"];
       Format.commands := [lit "show clock"; lit "show version"];
       Format.post_commands := [] |} ].

Definition crlf : str := [13; 10].

Definition answering_console : console :=
  {| term := {| script := [Matched 0; Matched 0; Matched 0; Matched 0; Matched 0];
                actions := [] |};
     printed :=
       [ lit "changeto system" ++ crlf;
         lit "show running-config" ++ crlf ++ lit ": Saved" ++ crlf
         ++ lit ":" ++ crlf ++ lit ": Serial Number: X" ++ crlf
         ++ lit "hostname fw1" ++ crlf ++ lit "interface e0" ++ crlf;
         lit "changeto system" ++ crlf;
         lit "show clock" ++ crlf ++ lit "10:00:00 UTC" ++ crlf;
         lit "show version" ++ crlf ++ lit "Version 9.8" ++ crlf ] |}.
(** ** Properties of the string primitives *)

(** Linear arithmetic with division and remainder by constants. *)
Ltac zlia := Z.div_mod_to_equations; lia.

(** Decide the comparisons that occur in a goal by linear arithmetic. *)
Ltac decide_tests :=
  repeat match goal with
  | |- context [?a <? ?b] =>
      first [ replace (a <? b) with true by (symmetry; apply Z.ltb_lt; zlia)
            | replace (a <? b) with false by (symmetry; apply Z.ltb_ge; zlia) ]
  | |- context [?a <=? ?b] =>
      first [ replace (a <=? b) with true by (symmetry; apply Z.leb_le; zlia)
            | replace (a <=? b) with false by (symmetry; apply Z.leb_gt; zlia) ]
  end; cbn [andb orb negb].

Ltac bytes_in_range :=
  repeat (apply Forall_cons; [unfold is_byte; zlia|]); apply Forall_nil.

Lemma utf8_char_roundtrip (c : Z) (rest : bytes) :
  scalar_value c ->
  exists bs, utf8_encode_char c = Some bs /\ Forall is_byte bs /\
    utf8_decode (bs ++ rest) = (s <- utf8_decode rest ;; Some (c :: s)).
Proof.
  intros [Hr Hs]. unfold utf8_encode_char, is_surrogate.
  destruct (Z.ltb_spec c 0); [zlia|].
  destruct (Z.ltb_spec c 128).
  { eexists; split; [reflexivity|]. split.
    - bytes_in_range.
    - cbn [app utf8_decode]. decide_tests. reflexivity. }
  destruct (Z.ltb_spec c 2048).
  { eexists; split; [reflexivity|]. split.
    - bytes_in_range.
    - cbn [app utf8_decode]. unfold is_cont. decide_tests.
      destruct (utf8_decode rest); cbn [bind]; [|reflexivity].
      do 2 f_equal. zlia. }
  destruct (Z.ltb_spec c 65536).
  { replace ((55296 <=? c) && (c <=? 57343)) with false
      by (symmetry; apply andb_false_iff;
          rewrite Z.leb_gt, Z.leb_gt; zlia).
    eexists; split; [reflexivity|]. split.
    - bytes_in_range.
    - cbn [app utf8_decode]. unfold is_cont, is_surrogate. cbv zeta.
      replace ((224 + c / 4096 - 224) * 4096 + (128 + (c / 64) mod 64 - 128) * 64
               + (128 + c mod 64 - 128)) with c by zlia.
      decide_tests.
      replace ((55296 <=? c) && (c <=? 57343)) with false
        by (symmetry; apply andb_false_iff;
            rewrite Z.leb_gt, Z.leb_gt; zlia).
      cbn [negb]. reflexivity. }
  destruct (Z.ltb_spec c 1114112); [|zlia].
  eexists; split; [reflexivity|]. split.
  - bytes_in_range.
  - cbn [app utf8_decode]. unfold is_cont. cbv zeta.
    replace ((240 + c / 262144 - 240) * 262144
             + (128 + (c / 4096) mod 64 - 128) * 4096
             + (128 + (c / 64) mod 64 - 128) * 64
             + (128 + c mod 64 - 128)) with c by zlia.
    decide_tests. reflexivity.
Qed.

Lemma utf8_roundtrip_app (s : str) (rest : bytes) :
  Forall scalar_value s ->
  exists b, utf8_encode s = Some b /\ Forall is_byte b /\
    utf8_decode (b ++ rest) = (t <- utf8_decode rest ;; Some (s ++ t)).
Proof.
  induction 1 as [|c r Hc Hr IH]; cbn [utf8_encode].
  - exists []. repeat split; [constructor|].
    cbn [app]. destruct (utf8_decode rest); reflexivity.
  - destruct IH as (br & Er & Br & Dr).
    destruct (utf8_char_roundtrip c (br ++ rest) Hc) as (bc & Ec & Bc & Dc).
    exists (bc ++ br). rewrite Ec, Er. cbn [bind].
    repeat split; [apply Forall_app; auto|].
    rewrite <- app_assoc, Dc, Dr.
    destruct (utf8_decode rest); reflexivity.
Qed.

Lemma utf8_roundtrip (s : str) :
  Forall scalar_value s ->
  exists b, utf8_encode s = Some b /\ Forall is_byte b /\ utf8_decode b = Some s.
Proof.
  intros H. destruct (utf8_roundtrip_app s [] H) as (b & E & B & D).
  exists b. repeat split; auto.
  rewrite app_nil_r in D. rewrite D. cbn. now rewrite app_nil_r.
Qed.

(** A string that [utf8_encode] accepts consists of scalar values. *)
Lemma utf8_encode_some (s : str) (b : bytes) :
  utf8_encode s = Some b -> Forall scalar_value s.
Proof.
  revert b. induction s as [|c r IH]; intros b E; [constructor|].
  cbn [utf8_encode] in E.
  destruct (utf8_encode_char c) as [bc|] eqn:Ec; [|discriminate].
  destruct (utf8_encode r) as [br|] eqn:Er; [|discriminate].
  constructor; [|eauto].
  unfold utf8_encode_char, is_surrogate in Ec. unfold scalar_value.
  destruct (Z.ltb_spec c 0); [discriminate|].
  destruct (Z.ltb_spec c 128); [lia|].
  destruct (Z.ltb_spec c 2048); [lia|].
  destruct (Z.ltb_spec c 65536).
  - destruct (Z.leb_spec 55296 c); destruct (Z.leb_spec c 57343);
      cbn [andb] in Ec; try discriminate; lia.
  - destruct (Z.ltb_spec c 1114112); [lia|discriminate].
Qed.

Lemma utf8_decode_ascii (b : bytes) :
  Forall is_ascii b -> utf8_decode b = Some b.
Proof.
  induction 1 as [|c r Hc Hr IH]; [reflexivity|].
  cbn [utf8_decode]. unfold is_ascii in Hc. decide_tests.
  rewrite IH. reflexivity.
Qed.

Lemma utf8_encode_ascii (s : str) :
  Forall is_ascii s -> utf8_encode s = Some s.
Proof.
  induction 1 as [|c r Hc Hr IH]; [reflexivity|].
  cbn [utf8_encode]. unfold utf8_encode_char. unfold is_ascii in Hc.
  decide_tests. rewrite IH. reflexivity.
Qed.

Lemma hex_digit_lower (n : Z) : 0 <= n < 16 -> hex_lower (hex_digit n).
Proof.
  intros H. unfold hex_lower, hex_digit. destruct (Z.ltb_spec n 10); lia.
Qed.

Lemma hex_value_digit (n : Z) : 0 <= n < 16 -> hex_value (hex_digit n) = Some n.
Proof.
  intros H. unfold hex_value, hex_digit.
  destruct (Z.ltb_spec n 10); decide_tests; f_equal; lia.
Qed.

Lemma hexlify_lower (b : bytes) : Forall is_byte b -> Forall hex_lower (hexlify b).
Proof.
  induction 1 as [|x r Hx Hr IH]; cbn [hexlify]; [constructor|].
  unfold is_byte in Hx.
  repeat (constructor; [apply hex_digit_lower; zlia|]). exact IH.
Qed.

Lemma unhexlify_hexlify (b : bytes) :
  Forall is_byte b -> unhexlify (hexlify b) = Some b.
Proof.
  induction 1 as [|x r Hx Hr IH]; cbn [hexlify unhexlify]; [reflexivity|].
  unfold is_byte in Hx.
  rewrite !hex_value_digit by zlia. rewrite IH. cbn [bind].
  do 2 f_equal. zlia.
Qed.

Lemma hex_lower_cases (c : Z) :
  hex_lower c ->
  In c [48; 49; 50; 51; 52; 53; 54; 55; 56; 57; 97; 98; 99; 100; 101; 102].
Proof.
  unfold hex_lower. intros H. cbn [In].
  assert (c = 48 \/ c = 49 \/ c = 50 \/ c = 51 \/ c = 52 \/ c = 53 \/ c = 54
          \/ c = 55 \/ c = 56 \/ c = 57 \/ c = 97 \/ c = 98 \/ c = 99
          \/ c = 100 \/ c = 101 \/ c = 102) by lia.
  intuition auto.
Qed.

(** On hexadecimal text the two translation tables are inverse, and the
    first one yields letters only. *)
Lemma translate_hex (h : str) :
  Forall hex_lower h ->
  let e := translate (maketrans (lit "1234567890") (lit "ghijklmnop")) h in
  Forall a_to_p e /\
  translate (maketrans (lit "ghijklmnop") (lit "1234567890")) e = h.
Proof.
  induction 1 as [|c r Hc Hr IH]; cbn zeta; [split; [constructor|reflexivity]|].
  cbn zeta in IH. destruct IH as [IHa IHe].
  unfold translate in *. cbn [map]. rewrite IHe.
  apply hex_lower_cases in Hc. cbn [In] in Hc.
  repeat (destruct Hc as [<-|Hc];
          [split; [constructor; [vm_compute; split; discriminate|exact IHa]
                  |reflexivity]|]).
  destruct Hc.
Qed.

Lemma scalar_valueb_spec (c : Z) : scalar_valueb c = true -> scalar_value c.
Proof.
  unfold scalar_valueb, scalar_value.
  rewrite !andb_true_iff, negb_true_iff, andb_false_iff.
  rewrite !Z.leb_le, Z.ltb_lt, !Z.leb_gt. lia.
Qed.

Lemma scalar_value_forallb (s : str) :
  forallb scalar_valueb s = true -> Forall scalar_value s.
Proof.
  rewrite forallb_forall, Forall_forall.
  intros H c Hc. apply scalar_valueb_spec, H, Hc.
Qed.

(** ** Claim C4 *)

(** C4: for every string [s] that UTF-8 can encode, [encode_command s]
    returns a key, [decode_command] maps that key back to [s], and the key
    consists of the letters [a]..[p] only (the hexadecimal letters [a]..[f]
    and the substitutes [g]..[p] of the digits), so it holds no digit and no
    punctuation. *)
Theorem decode_encode_command (s : str) :
  Forall scalar_value s ->
  exists e, encode_command s = Some e /\ decode_command e = Some s /\
            Forall a_to_p e.
Proof.
  intros H. destruct (utf8_roundtrip s H) as (b & E & B & D).
  pose proof (hexlify_lower b B) as L.
  assert (A : Forall is_ascii (hexlify b)).
  { eapply Forall_impl; [|exact L]. unfold hex_lower, is_ascii. lia. }
  destruct (translate_hex (hexlify b) L) as [Ha He].
  eexists. unfold encode_command. rewrite E. cbn [bind].
  rewrite (utf8_decode_ascii _ A). cbn [bind]. split; [reflexivity|].
  split; [|exact Ha].
  unfold decode_command. rewrite He, (unhexlify_hexlify b B). exact D.
Qed.

Lemma decode_encode_command_witness :
  exists e, encode_command (lit "show running-config") = Some e /\
            decode_command e = Some (lit "show running-config") /\
            Forall a_to_p e.
Proof.
  apply (decode_encode_command (lit "show running-config")).
  apply scalar_value_forallb. reflexivity.
Defined.

(** ** Dictionaries *)

Lemma str_eqb_eq (a b : str) : str_eqb a b = true <-> a = b.
Proof.
  unfold str_eqb. destruct (list_eq_dec Z.eq_dec a b); split; congruence.
Qed.

Lemma str_eqb_neq (a b : str) : str_eqb a b = false <-> a <> b.
Proof.
  unfold str_eqb. destruct (list_eq_dec Z.eq_dec a b); split; congruence.
Qed.

Lemma str_eqb_refl (a : str) : str_eqb a a = true.
Proof. now apply str_eqb_eq. Qed.

Lemma str_eqb_sym (a b : str) : str_eqb a b = str_eqb b a.
Proof.
  destruct (str_eqb b a) eqn:E.
  - apply str_eqb_eq in E. subst. apply str_eqb_refl.
  - apply str_eqb_neq in E. apply str_eqb_neq. congruence.
Qed.

Lemma existsb_str_eqb (x : str) (l : list str) :
  existsb (str_eqb x) l = true <-> In x l.
Proof.
  rewrite existsb_exists. split.
  - intros (y & Hy & E). apply str_eqb_eq in E. now subst.
  - intros H. exists x. split; [exact H|apply str_eqb_refl].
Qed.

Lemma nodupb_NoDup (l : list str) : nodupb l = true <-> NoDup l.
Proof.
  induction l as [|x r IH]; cbn [nodupb].
  - split; [constructor|reflexivity].
  - rewrite andb_true_iff, negb_true_iff, IH. split.
    + intros [N D]. constructor; [|exact D].
      intros I. apply existsb_str_eqb in I. congruence.
    + intros D. inversion D as [|? ? N D']; subst. split; [|exact D'].
      destruct (existsb (str_eqb x) r) eqn:E; [|reflexivity].
      apply existsb_str_eqb in E. contradiction.
Qed.

Lemma dict_set_fresh {V} (d : dict V) (k : str) (v : V) :
  ~ In k (keys d) -> dict_set d k v = d ++ [(k, v)].
Proof.
  induction d as [|[k' v'] r IH]; intros N; cbn [dict_set app]; [reflexivity|].
  cbn [keys map fst In] in N.
  destruct (str_eqb k' k) eqn:E.
  - apply str_eqb_eq in E. tauto.
  - rewrite IH; [reflexivity|]. unfold keys. tauto.
Qed.

Section Rebuild.
Context {V W : Type}.
Variables (f : str -> option str) (g : V -> option W).

Lemma rebuild_fold (d : dict V) (d' acc : dict W) :
  Forall2 (carried f g) d d' ->
  NoDup (keys (acc ++ d')) ->
  fold_left (rebuild_step f g) d (Some acc) = Some (acc ++ d').
Proof.
  intros H. revert acc.
  induction H as [|[k v] [k' v'] r r' [Hk Hv] Hr IH]; intros acc N.
  - now rewrite app_nil_r.
  - cbn [fold_left]. unfold rebuild_step at 2. cbn [bind fst snd] in *.
    rewrite Hv, Hk. cbn [bind].
    rewrite dict_set_fresh.
    + rewrite IH; rewrite <- app_assoc; [reflexivity|exact N].
    + unfold keys in *. rewrite map_app in N. cbn [map fst] in N.
      apply NoDup_remove_2 in N. intros I. apply N.
      apply in_or_app. now left.
Qed.

Lemma dict_rebuild_carried (d : dict V) (d' : dict W) :
  Forall2 (carried f g) d d' -> NoDup (keys d') -> dict_rebuild f g d = Some d'.
Proof.
  intros H N. exact (rebuild_fold d d' [] H N).
Qed.
End Rebuild.

(** A rebuild whose key and value maps have left inverses is undone by the
    rebuild with the inverses. *)
Lemma dict_rebuild_roundtrip {V W}
    (f f' : str -> option str) (g : V -> option W) (g' : W -> option V)
    (d : dict V) :
  NoDup (keys d) ->
  (forall k v, In (k, v) d ->
     exists k' v', f k = Some k' /\ g v = Some v' /\
                   f' k' = Some k /\ g' v' = Some v) ->
  exists d', dict_rebuild f g d = Some d' /\ dict_rebuild f' g' d' = Some d.
Proof.
  intros N H.
  assert (E : exists d', Forall2 (carried f g) d d' /\ Forall2 (carried f' g') d' d).
  { clear N. induction d as [|[k v] r IH].
    - exists []. split; constructor.
    - destruct (H k v (or_introl eq_refl)) as (k' & v' & A & B & C & D).
      destruct IH as (r' & R1 & R2).
      { intros k0 v0 I. apply H. now right. }
      exists ((k', v') :: r'). split; constructor; try assumption; split; assumption. }
  destruct E as (d' & R1 & R2).
  assert (N' : NoDup (keys d')).
  { clear R1 H. induction R2 as [|[k' v'] [k v] r' r [Hk _] Hr IH];
      [constructor|].
    cbn [keys map fst] in *. inversion N as [|? ? Nk Nr]; subst.
    constructor; [|now apply IH].
    intros I. apply Nk. clear IH Nk Nr N.
    induction Hr as [|[k1' v1'] [k1 v1] s' s [Hk1 _] Hs IHs]; [destruct I|].
    cbn [map fst In] in *. destruct I as [->|I]; [left|right; now apply IHs].
    cbn [fst] in Hk, Hk1. congruence. }
  exists d'. split; apply dict_rebuild_carried; assumption.
Qed.

(** ** Compression of device data *)

(** Keys are decoded to the names they encode, so no two names share a key. *)
Lemma command_codec_inverse (s : str) :
  Forall scalar_value s ->
  exists e, encode_command s = Some e /\ decode_command e = Some s.
Proof.
  intros H. destruct (utf8_roundtrip s H) as (b & E & B & D).
  pose proof (hexlify_lower b B) as L.
  destruct (translate_hex (hexlify b) L) as [_ He].
  unfold encode_command, decode_command. rewrite E. cbn [bind].
  rewrite utf8_decode_ascii.
  - cbn [bind]. eexists. split; [reflexivity|].
    rewrite He, (unhexlify_hexlify b B). exact D.
  - eapply Forall_impl; [|exact L]. unfold hex_lower, is_ascii. lia.
Qed.

Lemma encode_command_inv (k e : str) :
  encode_command k = Some e -> decode_command e = Some k.
Proof.
  intros E.
  assert (S : Forall scalar_value k).
  { unfold encode_command in E.
    destruct (utf8_encode k) as [b|] eqn:U; [|discriminate].
    eapply utf8_encode_some, U. }
  destruct (command_codec_inverse k S) as (e' & E' & D). congruence.
Qed.

Lemma ascii_encode_ascii (s : str) : Forall is_ascii s -> ascii_encode s = Some s.
Proof.
  intros H. unfold ascii_encode.
  replace (forallb _ s) with true; [reflexivity|].
  symmetry. apply forallb_forall. rewrite Forall_forall in H.
  intros c I. specialize (H c I). unfold is_ascii in H.
  apply andb_true_iff. rewrite Z.leb_le, Z.ltb_lt. lia.
Qed.

Section Codec.
Variable K : blob_codec.
Hypothesis K_ok : blob_codec_ok K.

Lemma compress_output_roundtrip (v : str) :
  Forall scalar_value v ->
  exists c, compress_output K v = Some c /\ decompress_output K c = Some v.
Proof.
  intros S. destruct (utf8_roundtrip v S) as (b & E & B & D).
  pose proof (bz2_bytes K K_ok b B) as Bz.
  pose proof (b85_ascii K K_ok _ Bz) as A.
  exists (b85encode K (bz2_compress K b)). unfold compress_output.
  rewrite E. cbn [bind]. split; [now apply utf8_decode_ascii|].
  unfold decompress_output. rewrite (ascii_encode_ascii _ A). cbn [bind].
  rewrite (b85_roundtrip K K_ok _ Bz). cbn [bind].
  rewrite (bz2_roundtrip K K_ok _ B). exact D.
Qed.

Lemma compress_format_roundtrip (fd : dict str) :
  well_formed_format fd = true ->
  exists c, dict_rebuild encode_command (compress_output K) fd = Some c /\
            dict_rebuild decode_command (decompress_output K) c = Some fd.
Proof.
  unfold well_formed_format. rewrite andb_true_iff, nodupb_NoDup, forallb_forall.
  intros [N H]. apply dict_rebuild_roundtrip; [exact N|].
  intros k v I. specialize (H _ I). cbn [fst snd] in H.
  apply andb_true_iff in H. destruct H as [Hk Hv].
  apply scalar_value_forallb in Hk, Hv.
  destruct (command_codec_inverse k Hk) as (k' & Ek & Dk).
  destruct (compress_output_roundtrip v Hv) as (v' & Ev & Dv).
  exists k', v'. auto.
Qed.

Lemma compress_formats_roundtrip (fs : dict (dict str)) :
  NoDup (keys fs) ->
  (forall k fd, In (k, fd) fs -> well_formed_format fd = true) ->
  exists c,
    dict_rebuild Some (dict_rebuild encode_command (compress_output K)) fs
      = Some c /\
    dict_rebuild Some (dict_rebuild decode_command (decompress_output K)) c
      = Some fs.
Proof.
  intros N H. apply dict_rebuild_roundtrip; [exact N|].
  intros k fd I. destruct (compress_format_roundtrip fd (H k fd I)) as (c & E & D).
  exists k, c. auto.
Qed.
End Codec.

Lemma hex_codec_ok : blob_codec_ok hex_codec.
Proof.
  constructor; cbn [hex_codec bz2_compress bz2_decompress b85encode b85decode].
  - auto.
  - reflexivity.
  - intros b B. eapply Forall_impl; [|apply hexlify_lower, B].
    unfold hex_lower, is_ascii. lia.
  - apply unhexlify_hexlify.
Qed.

(** ** Claim C3 *)

(** C3: for every well-formed device snapshot, and with library codecs that
    are lossless, [compress_device_data] returns a compressed snapshot and
    [decompress_device_data] maps it back to the very same snapshot: the
    same fields, the same formats and commands in the same order, and every
    command output identical code point by code point. *)
Theorem decompress_compress_device_data (K : blob_codec) (d : device_data) :
  blob_codec_ok K ->
  well_formed_snapshot d = true ->
  exists c, compress_device_data K d = Some c /\
            decompress_device_data K c = Some d.
Proof.
  intros K_ok. unfold well_formed_snapshot, compress_device_data.
  destruct d as [[ts|] [name|] [type|] [fs|]]; try discriminate.
  cbn [snapshot_timestamp device_name device_type output_formats
       is_empty get_output_formats].
  rewrite andb_true_iff, nodupb_NoDup, forallb_forall. intros [N H].
  destruct (compress_formats_roundtrip K K_ok fs N) as (c & E & D).
  { intros k fd I. exact (H _ I). }
  rewrite E. cbn [bind]. eexists. split; [reflexivity|].
  unfold decompress_device_data.
  cbn [snapshot_timestamp device_name device_type output_formats
       is_empty get_output_formats].
  rewrite D. reflexivity.
Qed.

Lemma decompress_compress_device_data_witness :
  exists c, compress_device_data hex_codec sample_snapshot = Some c /\
            decompress_device_data hex_codec c = Some sample_snapshot.
Proof.
  apply (decompress_compress_device_data hex_codec sample_snapshot).
  - exact hex_codec_ok.
  - reflexivity.
Defined.

(** ** String search *)

Lemma startswith_spec (s p : str) :
  startswith s p = true <-> exists post, s = p ++ post.
Proof.
  revert s. induction p as [|c pr IH]; intros s; cbn [startswith].
  - split; [intros _; now exists s|reflexivity].
  - destruct s as [|d r].
    + split; [discriminate|intros (post & E); discriminate].
    + rewrite andb_true_iff, Z.eqb_eq, IH. split.
      * intros (-> & post & ->). now exists post.
      * intros (post & E). cbn [app] in E. injection E as -> ->.
        split; [reflexivity|now exists post].
Qed.

Lemma contains_cons (c : Z) (r sub : str) :
  contains (c :: r) sub <-> startswith (c :: r) sub = true \/ contains r sub.
Proof.
  rewrite startswith_spec. unfold contains. split.
  - intros (pre & post & E). destruct pre as [|d pre].
    + left. now exists post.
    + right. cbn [app] in E. injection E as -> ->. now exists pre, post.
  - intros [(post & E)|(pre & post & E)].
    + now exists [], post.
    + exists (c :: pre), post. now rewrite E.
Qed.

Lemma find_from_spec (i : Z) (s sub : str) :
  0 <= i -> (find_from i s sub >=? 0) = true <-> contains s sub.
Proof.
  revert i. induction s as [|c r IH]; intros i Hi; cbn [find_from].
  - destruct (startswith [] sub) eqn:E.
    + split; [intros _|intros _; apply Z.geb_le; lia].
      apply startswith_spec in E. destruct E as (post & E).
      now exists [], post.
    + split; [discriminate|].
      intros (pre & post & C). exfalso.
      destruct pre; [|discriminate]. destruct sub; discriminate.
  - rewrite contains_cons. destruct (startswith (c :: r) sub) eqn:E.
    + split; [now left|intros _; apply Z.geb_le; lia].
    + rewrite IH by lia. split; [now right|].
      intros [C|C]; [discriminate|exact C].
Qed.

Lemma find_spec (s sub : str) : (find s sub >=? 0) = true <-> contains s sub.
Proof. apply find_from_spec. lia. Qed.

(** ** The comparison of two outputs *)

Lemma excluded_spec (a b : str) :
  excluded a b = true <-> volatile a \/ volatile b.
Proof.
  unfold excluded, volatile. rewrite existsb_exists. split.
  - intros (ex & I & H). apply orb_true_iff in H.
    rewrite !find_spec in H. destruct H; [left|right]; now exists ex.
  - intros [(ex & I & C)|(ex & I & C)]; exists ex; (split; [exact I|]);
      apply orb_true_iff; rewrite !find_spec; auto.
Qed.

Lemma excluded_sym (a b : str) : excluded a b = excluded b a.
Proof.
  unfold excluded. induction exclusions as [|ex r IH]; cbn [existsb]; [reflexivity|].
  rewrite IH. f_equal. apply orb_comm.
Qed.

Lemma compare_lines_sym (la lb : list str) :
  compare_lines (combine la lb) = compare_lines (combine lb la).
Proof.
  revert lb. induction la as [|a ra IH]; intros [|b rb]; cbn [combine compare_lines];
    try reflexivity.
  rewrite (str_eqb_sym a b), (excluded_sym a b), IH. reflexivity.
Qed.

Lemma compare_lines_spec (la lb : list str) :
  List.length la = List.length lb ->
  compare_lines (combine la lb) = true <->
  forall i x y, nth_error la i = Some x -> nth_error lb i = Some y ->
                x <> y -> volatile x \/ volatile y.
Proof.
  revert lb. induction la as [|a ra IH]; intros [|b rb] L; try discriminate L.
  - cbn [combine compare_lines]. split; [|reflexivity].
    intros _ [|i] x y Hx; discriminate Hx.
  - cbn [combine compare_lines]. injection L as L. specialize (IH rb L).
    destruct (str_eqb a b) eqn:E; cbn [negb].
    + apply str_eqb_eq in E. subst b. rewrite IH. split.
      * intros H [|i] x y Hx Hy N; cbn [nth_error] in Hx, Hy.
        -- congruence.
        -- eapply H; eassumption.
      * intros H i x y Hx Hy. apply (H (S i)); assumption.
    + apply str_eqb_neq in E. destruct (excluded a b) eqn:X.
      * apply excluded_spec in X. rewrite IH. split.
        -- intros H [|i] x y Hx Hy N; cbn [nth_error] in Hx, Hy.
           ++ congruence.
           ++ eapply H; eassumption.
        -- intros H i x y Hx Hy. apply (H (S i)); assumption.
      * split; [discriminate|]. intros H. exfalso.
        specialize (H 0%nat a b eq_refl eq_refl E).
        apply excluded_spec in H. congruence.
Qed.

(** The code's comparison is the equivalence of the claim's wording. *)
Lemma compare_command_outputs_equivalent (a b : str) :
  compare_command_outputs a b = true <-> equivalent a b.
Proof.
  unfold compare_command_outputs, equivalent. cbv zeta.
  destruct (Nat.eqb_spec (List.length (split 10 a)) (List.length (split 10 b)))
    as [L|L]; cbn [negb].
  - rewrite (compare_lines_spec _ _ L). tauto.
  - split; [discriminate|tauto].
Qed.

(** ** Claim C10 *)

(** C10: [compare_command_outputs] is symmetric: for all strings [a] and
    [b], comparing [a] with [b] gives the same answer as comparing [b] with
    [a]. *)
Theorem compare_command_outputs_sym (a b : str) :
  compare_command_outputs a b = compare_command_outputs b a.
Proof.
  unfold compare_command_outputs. cbv zeta.
  rewrite (Nat.eqb_sym (List.length (split 10 a))), compare_lines_sym.
  reflexivity.
Qed.

(** ** The change detector *)

Lemma fold_flag {A} (step : bool -> A -> bool) (p : A -> bool)
    (l : list A) (flag : bool) :
  (forall acc x, step acc x = p x || acc) ->
  fold_left step l flag = flag || existsb p l.
Proof.
  intros H. revert flag. induction l as [|x r IH]; intros flag; cbn [fold_left existsb].
  - now rewrite orb_false_r.
  - rewrite IH, H. destruct (p x), flag; reflexivity.
Qed.

Lemma dict_get_keys {V} (d : dict V) (k : str) (v : V) :
  dict_get d k = Some v -> In k (keys d).
Proof.
  induction d as [|[k' v'] r IH]; cbn [dict_get keys map fst In]; [discriminate|].
  destruct (str_eqb k' k) eqn:E.
  - apply str_eqb_eq in E. now left.
  - intros G. right. now apply IH.
Qed.

Lemma dict_get_filter {V} (P : str -> bool) (d : dict V) (k : str) :
  dict_get (filter (fun kv => P (fst kv)) d) k
  = if P k then dict_get d k else None.
Proof.
  induction d as [|[k' v'] r IH]; cbn [filter dict_get fst].
  - now destruct (P k).
  - destruct (P k') eqn:Pk'; cbn [dict_get]; destruct (str_eqb k' k) eqn:E;
      try exact IH.
    + apply str_eqb_eq in E. subst. now rewrite Pk'.
    + apply str_eqb_eq in E. subst. rewrite IH. now rewrite Pk'.
Qed.

Lemma detect_in_format_spec (prev : dict (dict str)) (fk : str)
    (fmt : dict str) (flag : bool) :
  detect_in_format prev fk fmt flag = true <->
  flag = true \/
  exists ck out, dict_get fmt ck = Some out /\
                 compare_command_outputs out (previous_output prev fk ck) = false.
Proof.
  unfold detect_in_format.
  rewrite (fold_flag _
    (fun ck => match dict_get fmt ck with
               | Some out =>
                   negb (compare_command_outputs out (previous_output prev fk ck))
               | None => false
               end)).
  2:{ intros acc ck. destruct (dict_get fmt ck) as [out|]; [|reflexivity].
      now destruct (compare_command_outputs _ _). }
  rewrite orb_true_iff, existsb_exists. split.
  - intros [F|(ck & I & H)]; [now left|right].
    destruct (dict_get fmt ck) as [out|] eqn:G; [|discriminate].
    exists ck, out. split; [exact G|]. now apply negb_true_iff.
  - intros [F|(ck & out & G & H)]; [now left|right].
    exists ck. split; [eapply dict_get_keys, G|]. now rewrite G, H.
Qed.

Lemma detect_in_formats_spec (prev cur : dict (dict str)) :
  detect_in_formats prev cur = true <->
  exists fk fmt ck out,
    dict_get cur fk = Some fmt /\ dict_get fmt ck = Some out /\
    compare_command_outputs out (previous_output prev fk ck) = false.
Proof.
  unfold detect_in_formats.
  rewrite (fold_flag _
    (fun fk => match dict_get cur fk with
               | Some fmt => detect_in_format prev fk fmt false
               | None => false
               end)).
  2:{ intros acc fk. destruct (dict_get cur fk) as [fmt|]; [|reflexivity].
      destruct (detect_in_format prev fk fmt acc) eqn:D.
      - apply detect_in_format_spec in D. destruct D as [->|D].
        + now rewrite orb_true_r.
        + replace (detect_in_format prev fk fmt false) with true; [reflexivity|].
          symmetry. apply detect_in_format_spec. now right.
      - destruct acc.
        + exfalso. assert (T : detect_in_format prev fk fmt true = true)
            by (apply detect_in_format_spec; now left). congruence.
        + rewrite D. reflexivity. }
  cbn [orb]. rewrite existsb_exists. split.
  - intros (fk & I & H). destruct (dict_get cur fk) as [fmt|] eqn:G; [|discriminate].
    apply detect_in_format_spec in H. destruct H as [H|(ck & out & Gc & H)];
      [discriminate|].
    now exists fk, fmt, ck, out.
  - intros (fk & fmt & ck & out & G & Gc & H). exists fk.
    split; [eapply dict_get_keys, G|]. rewrite G.
    apply detect_in_format_spec. right. now exists ck, out.
Qed.

(** ** Claim C2 *)

(** C2 (amended): when the storage answers and [device_info] holds its
    name and formats, [detect_config_change] reports a change if and only
    if the latest backup holds no output formats (in particular when no
    previous backup exists), or for some format whose name begins with
    [backup] and some command of the current snapshot the current output
    and the previous output (the empty string when the command is absent
    from the previous backup) are not equivalent. *)
Theorem detect_config_change_iff
    (load_latest_backup : str -> option device_data)
    (device_info latest : device_data) (name : str)
    (formats : dict (dict str)) :
  device_name device_info = Some name ->
  load_latest_backup name = Some latest ->
  output_formats device_info = Some formats ->
  exists changed,
    detect_config_change load_latest_backup device_info = Some changed /\
    (changed = true <->
     get_output_formats latest = [] \/
     exists format_key format command output,
       startswith format_key (lit "backup") = true /\
       dict_get formats format_key = Some format /\
       dict_get format command = Some output /\
       ~ equivalent output
           (previous_output (get_output_formats latest) format_key command)).
Proof.
  intros Hn Hl Hf. unfold detect_config_change. rewrite Hn. cbn [bind].
  rewrite Hl. cbn [bind].
  assert (E : get_output_formats (if is_empty latest then empty_data else latest)
              = get_output_formats latest).
  { destruct latest as [[?|] [?|] [?|] [?|]]; reflexivity. }
  rewrite E. destruct (get_output_formats latest) as [|p prev] eqn:P.
  - exists true. split; [reflexivity|]. split; auto.
  - rewrite Hf. cbn [bind]. eexists. split; [reflexivity|].
    rewrite detect_in_formats_spec. split.
    + intros (fk & fmt & ck & out & G & Gc & H). right.
      pose proof (dict_get_filter (fun k => startswith k (lit "backup"))
                    formats fk) as F.
      cbv beta in F. rewrite F in G. clear F.
      destruct (startswith fk (lit "backup")) eqn:S; [|discriminate].
      exists fk, fmt, ck, out. repeat split; auto.
      rewrite <- compare_command_outputs_equivalent. congruence.
    + intros [N|(fk & fmt & ck & out & S & G & Gc & H)]; [discriminate|].
      exists fk, fmt, ck, out.
      pose proof (dict_get_filter (fun k => startswith k (lit "backup"))
                    formats fk) as F.
      cbv beta in F. rewrite F, S. clear F.
      repeat split; auto.
      rewrite <- compare_command_outputs_equivalent in H.
      now destruct (compare_command_outputs _ _).
Qed.

(** ** The storage write *)

Lemma uniform_range (a b u : Q) :
  (a <= b)%Q -> (0 <= u)%Q -> (u < 1)%Q ->
  (a <= uniform a b u /\ uniform a b u <= b)%Q.
Proof.
  intros Hab H0 H1. unfold uniform.
  assert (0 <= (b - a) * u)%Q by (apply Qmult_le_0_compat; lra).
  assert ((b - a) * u <= (b - a) * 1)%Q.
  { rewrite !(Qmult_comm (b - a)). apply Qmult_le_compat_r; lra. }
  lra.
Qed.

Lemma backoffs_range (env : environment) (n k : nat) :
  (forall i, 0 <= random env i /\ random env i < 1)%Q ->
  Forall in_backoff_range (backoffs env n k).
Proof.
  intros H. unfold backoffs. apply Forall_forall. intros q I.
  apply in_map_iff in I. destruct I as (i & <- & _).
  destruct (H (n + i)%nat). apply uniform_range; lra.
Qed.

Lemma backoffs_S (env : environment) (n k : nat) :
  backoffs env n (S k)
  = uniform (1 # 10) 10 (random env n) :: backoffs env (S n) k.
Proof.
  unfold backoffs. cbn [seq map]. rewrite Nat.add_0_r. f_equal.
  rewrite <- seq_shift, map_map. apply map_ext. intros i.
  now rewrite Nat.add_succ_r.
Qed.

(** As long as [put_item] is throttled the loop sleeps and tries again. *)
Lemma write_loop_throttled (env : environment) (table_name : str)
    (item : document) (k attempts : nat) (w : storage) :
  throttled_for env w k ->
  write_loop env table_name item 10 (k + attempts) w
  = write_loop env table_name item 10 attempts
      {| put_item_calls := put_item_calls w + k;
         items := items w;
         sleeps := sleeps w ++ backoffs env (List.length (sleeps w)) k |}.
Proof.
  revert w. induction k as [|k IH]; intros w T.
  - cbn [Nat.add backoffs]. destruct w as [c i s]. cbn.
    now rewrite Nat.add_0_r, app_nil_r.
  - cbn [Nat.add write_loop].
    destruct (T 0%nat) as (code & E & Th); [lia|].
    rewrite Nat.add_0_r in E. rewrite E, Th. cbn [negb].
    rewrite IH.
    + cbn [put_item_calls items sleeps]. rewrite backoffs_S.
      rewrite length_app. cbn [List.length].
      rewrite <- app_assoc. cbn [app].
      replace (List.length (sleeps w) + 1)%nat with (S (List.length (sleeps w)))
        by lia.
      replace (S (put_item_calls w) + k)%nat with (put_item_calls w + S k)%nat
        by lia.
      reflexivity.
    + intros i Hi. cbn [put_item_calls].
      destruct (T (S i)) as (code' & E' & Th'); [lia|].
      exists code'. split; [|exact Th'].
      replace (S (put_item_calls w) + i)%nat with (put_item_calls w + S i)%nat
        by lia.
      exact E'.
Qed.

Lemma backoffs_length (env : environment) (n k : nat) :
  List.length (backoffs env n k) = k.
Proof. unfold backoffs. now rewrite length_map, length_seq. Qed.

(** ** Claim C6 *)

(** C6: [write] tries [put_item] again only after a throttling or
    provisioned-throughput error, and sleeps a duration in [0.1, 10.0]
    before each new attempt.  If [put_item] is throttled [k] times, with
    [k < 15], and then succeeds, [write] returns normally after [k + 1]
    attempts and [k] sleeps ([k = 3]: four attempts, three sleeps); if it
    then raises any other error, [write] raises at once, after [k + 1]
    attempts, without a further attempt; if it is throttled 15 times,
    [write] raises after 15 attempts. *)
Theorem write_retry_policy (K : blob_codec) (env : environment)
    (table_name : str) (doc item : document) (w : storage) (k : nat) :
  (forall i, 0 <= random env i /\ random env i < 1)%Q ->
  prepare_item K table_name doc = Some item ->
  throttled_for env w k ->
  let slept := backoffs env (List.length (sleeps w)) k in
  List.length slept = k /\ Forall in_backoff_range slept /\
  ((k < 15)%nat ->
   put_item_outcome env (put_item_calls w + k) = PutOk ->
   write K env table_name doc w
   = (Ok tt, {| put_item_calls := put_item_calls w + k + 1;
                items := items w ++ [(table_name, item)];
                sleeps := sleeps w ++ slept |})) /\
  ((k < 15)%nat ->
   forall e, put_item_outcome env (put_item_calls w + k) = PutRaises e ->
   not_throttling e ->
   exists e', write K env table_name doc w
   = (Raise e', {| put_item_calls := put_item_calls w + k + 1;
                   items := items w;
                   sleeps := sleeps w ++ slept |})) /\
  (k = 15%nat ->
   exists e', write K env table_name doc w
   = (Raise e', {| put_item_calls := put_item_calls w + 15;
                   items := items w;
                   sleeps := sleeps w ++ slept |})).
Proof.
  intros R P T slept.
  split; [apply backoffs_length|].
  split; [now apply backoffs_range|].
  assert (W : forall attempts,
             write K env table_name doc w
             = write_loop env table_name item 10 attempts
                 {| put_item_calls := put_item_calls w + k;
                    items := items w; sleeps := sleeps w ++ slept |}
             \/ (k + attempts <> 15)%nat).
  { intros attempts. destruct (Nat.eq_dec (k + attempts) 15) as [E|E]; [left|now right].
    unfold write, write_with, mbind, lift. rewrite P. cbn [ret].
    rewrite <- E. now apply write_loop_throttled. }
  split; [|split].
  - intros Hk Hok. destruct (W (15 - k)%nat) as [->|N]; [|lia].
    destruct (15 - k)%nat as [|a] eqn:A; [lia|].
    cbn [write_loop put_item_calls items sleeps]. rewrite Hok.
    do 2 f_equal. f_equal. lia.
  - intros Hk e He Hn. destruct (W (15 - k)%nat) as [->|N]; [|lia].
    destruct (15 - k)%nat as [|a] eqn:A; [lia|].
    cbn [write_loop put_item_calls items sleeps]. rewrite He.
    replace (S (put_item_calls w + k)) with (put_item_calls w + k + 1)%nat by lia.
    destruct e; try (eexists; reflexivity).
    cbn [not_throttling] in Hn. rewrite Hn. cbn [negb]. eexists; reflexivity.
  - intros ->. destruct (W 0%nat) as [->|N]; [|lia].
    cbn [write_loop]. eexists; reflexivity.
Qed.

Lemma write_retry_policy_witness :
  write hex_codec throttling_thrice DBT_INFO (DeviceDocument sample_snapshot)
        fresh_storage
  = (Ok tt,
     {| put_item_calls := 4;
        items := [(DBT_INFO,
                   DeviceDocument
                     match compress_device_data hex_codec sample_snapshot with
                     | Some c => c
                     | None => empty_data
                     end)];
        sleeps := backoffs throttling_thrice 0 3 |}).
Proof.
  refine (proj1 (proj2 (proj2
    (write_retry_policy hex_codec throttling_thrice DBT_INFO
       (DeviceDocument sample_snapshot) _ fresh_storage 3 _ _ _))) _ _).
  - intros i. cbn. lra.
  - reflexivity.
  - intros i Hi. exists (lit "ThrottlingException").
    destruct i as [|[|[|i]]]; [split; reflexivity ..|lia].
  - lia.
  - reflexivity.
Defined.

Lemma detect_config_change_iff_witness :
  exists changed,
    detect_config_change (fun _ => Some empty_data) sample_snapshot = Some changed /\
    (changed = true <->
     get_output_formats empty_data = [] \/
     exists format_key format command output,
       startswith format_key (lit "backup") = true /\
       dict_get (get_output_formats sample_snapshot) format_key = Some format /\
       dict_get format command = Some output /\
       ~ equivalent output
           (previous_output (get_output_formats empty_data) format_key command)).
Proof.
  apply (detect_config_change_iff (fun _ => Some empty_data) sample_snapshot
           empty_data (lit "rtr1")); reflexivity.
Defined.

(** The claim as first worded fails: a previous backup exists, nothing in
    the current snapshot differs from it, and a change is reported. *)
Lemma detect_config_change_counterexample :
  detect_config_change (fun _ => Some backup_without_formats)
                       snapshot_without_backup = Some true /\
  is_empty backup_without_formats = false /\
  ~ (exists format_key format command output,
       startswith format_key (lit "backup") = true /\
       dict_get (get_output_formats snapshot_without_backup) format_key
         = Some format /\
       dict_get format command = Some output /\
       ~ equivalent output
           (previous_output (get_output_formats backup_without_formats)
                            format_key command)).
Proof.
  split; [reflexivity|]. split; [reflexivity|].
  intros (fk & fmt & ck & out & S & G & _).
  cbn [get_output_formats snapshot_without_backup output_formats dict_get] in G.
  destruct (str_eqb (lit "info") fk) eqn:E; [|discriminate G].
  apply str_eqb_eq in E. subst fk. discriminate S.
Qed.

(** ** Saving a snapshot *)

Lemma write_loop_items (env : environment) (table_name : str) (item : document)
    (q : Q) (attempts : nat) (w w' : storage) (r : result unit) :
  write_loop env table_name item q attempts w = (r, w') ->
  match r with
  | Ok _ => items w' = items w ++ [(table_name, item)]
  | Raise _ => items w' = items w
  end.
Proof.
  revert w. induction attempts as [|a IH]; intros w; cbn [write_loop].
  - intros [= <- <-]. reflexivity.
  - destruct (put_item_outcome env (put_item_calls w)) as [|e].
    + intros [= <- <-]. reflexivity.
    + destruct e; try (intros [= <- <-]; reflexivity).
      destruct (negb (throttling code)); [intros [= <- <-]; reflexivity|].
      intros H. apply IH in H. exact H.
Qed.








(** ** Claim C1 *)







(** In a test run nothing is written. *)
Lemma cli_process_test_run (K : blob_codec) (env : environment)
    (load_latest_backup : str -> option device_data)
    (session : Info.t -> result device_data)
    (timestamp : Z) (force_backup : bool) (device_info : Info.t)
    (w : storage) :
  snd (cli_process K env load_latest_backup session timestamp force_backup
                   true device_info w) = w.
Proof.
  unfold cli_process, exception_handler, mbind. cbn [negb ret].
  destruct (get_device_data session device_info) as [d|e]; [reflexivity|].
  destruct e; reflexivity.
Qed.

(** ** Claim C9 *)

(** C9 (amended): the document built for the info table holds exactly the
    output formats of the snapshot whose names begin with [info], and the
    document built for the backup table exactly those whose names begin
    with [backup]; in both, [device_name] and [device_type] are those of
    the snapshot and [snapshot_timestamp] is the time stamp that the driver
    passes to [save_device_data]. *)
Theorem document_for_contents (d doc : device_data) (timestamp : Z)
    (table_name : str) (prefix : str) :
  (table_name = DBT_INFO /\ prefix = lit "info") \/
  (table_name = DBT_BACKUP /\ prefix = lit "backup") ->
  document_for d timestamp table_name = Some doc ->
  snapshot_timestamp doc = Some timestamp /\
  device_name doc = device_name d /\
  device_type doc = device_type d /\
  exists formats kept,
    output_formats d = Some formats /\ output_formats doc = Some kept /\
    forall format_name format,
      dict_get kept format_name = Some format <->
      startswith format_name prefix = true /\
      dict_get formats format_name = Some format.
Proof.
  intros T.
  assert (P : skipn 7 table_name = prefix)
    by (destruct T as [[-> ->]|[-> ->]]; reflexivity).
  unfold document_for. rewrite P.
  destruct (device_name d) as [name|]; [|discriminate].
  destruct (device_type d) as [type|]; [|discriminate].
  destruct (output_formats d) as [formats|]; [|discriminate].
  cbn [bind]. intros [= <-].
  cbn [snapshot_timestamp device_name device_type output_formats].
  split; [reflexivity|]. split; [reflexivity|]. split; [reflexivity|].
  exists formats. eexists. split; [reflexivity|].
  split; [reflexivity|]. intros fk fmt.
  pose proof (dict_get_filter (fun k => startswith k prefix) formats fk) as F.
  cbv beta in F. rewrite F.
  destruct (startswith fk prefix); split; try tauto; try discriminate.
  intros [? _]. discriminate.
Qed.

Lemma document_for_contents_witness :
  exists doc,
    document_for sample_snapshot 1600000000 DBT_INFO = Some doc /\
    snapshot_timestamp doc = Some 1600000000 /\
    device_name doc = device_name sample_snapshot /\
    device_type doc = device_type sample_snapshot.
Proof.
  eexists. split; [reflexivity|].
  destruct (document_for_contents sample_snapshot _ 1600000000 DBT_INFO
              (lit "info") (or_introl (conj eq_refl eq_refl)) eq_refl)
    as (A & B & C & _).
  exact (conj A (conj B C)).
Defined.

(** The claim as first worded fails: a format whose name does not begin
    with [backup] is missing from the info document, and the time stamp of
    the document is not the one of the snapshot. *)
Lemma document_for_counterexample :
  exists doc kept,
    document_for snapshot_with_other_format 1600000000 DBT_INFO = Some doc /\
    output_formats doc = Some kept /\
    startswith (lit "status") (lit "backup") = false /\
    dict_get (get_output_formats snapshot_with_other_format) (lit "status")
      <> None /\
    dict_get kept (lit "status") = None /\
    snapshot_timestamp doc <> snapshot_timestamp snapshot_with_other_format.
Proof.
  do 2 eexists. split; [reflexivity|]. split; [reflexivity|].
  split; [reflexivity|]. split; [discriminate|].
  split; [reflexivity|discriminate].
Qed.

(** ** Lists of names *)

Lemma mem_In (x : str) (l : list str) : mem x l = true <-> In x l.
Proof. apply existsb_str_eqb. Qed.

Lemma mem_not_In (x : str) (l : list str) : mem x l = false <-> ~ In x l.
Proof.
  rewrite <- mem_In. destruct (mem x l); split; congruence.
Qed.

Lemma insert_sorted_In (x y : str) (l : list str) :
  In y (insert_sorted x l) <-> y = x \/ In y l.
Proof.
  induction l as [|z r IH]; cbn [insert_sorted In].
  - intuition auto.
  - destruct (str_leb x z); cbn [In]; [intuition auto|].
    rewrite IH. intuition auto.
Qed.

Lemma sorted_In (y : str) (l : list str) : In y (sorted l) <-> In y l.
Proof.
  unfold sorted. induction l as [|x r IH]; cbn [fold_right In]; [tauto|].
  rewrite insert_sorted_In, IH. intuition auto.
Qed.

Lemma to_set_In (x : str) (l : list str) : In x (to_set l) <-> In x l.
Proof.
  induction l as [|y r IH]; cbn [to_set In]; [tauto|].
  destruct (mem y r) eqn:E.
  - rewrite IH. apply mem_In in E. split; [auto|].
    intros [<-|I]; assumption.
  - cbn [In]. rewrite IH. tauto.
Qed.

Lemma set_difference_In (x : str) (a b : list str) :
  In x (set_difference a b) <-> In x a /\ ~ In x b.
Proof.
  unfold set_difference. rewrite filter_In, to_set_In, negb_true_iff.
  rewrite mem_not_In, to_set_In. tauto.
Qed.

(** ** Computations that return *)

Lemma exception_handler_ok {S A} (m : M S A) (s s' : S) (a : A) :
  exception_handler m s = (Ok a, s') -> m s = (Ok a, s').
Proof.
  unfold exception_handler. destruct (m s) as [[a0|e] s1]; [auto|].
  destruct e; discriminate.
Qed.

Lemma mbind_ok {S A B} (m : M S A) (k : A -> M S B) (s s' : S) (b : B) :
  mbind m k s = (Ok b, s') ->
  exists a s1, m s = (Ok a, s1) /\ k a s1 = (Ok b, s').
Proof.
  unfold mbind. destruct (m s) as [[a|e] s1]; [|discriminate].
  intros H. now exists a, s1.
Qed.

(** ** The fleet runner *)

Section RunnerFacts.
Context {S A B : Type}.
Variable f : A -> M S (list B).
Variable produced : A -> B -> Prop.
Hypothesis f_produces :
  forall x s r s', f x s = (Ok r, s') -> forall y, In y r -> produced x y.

Lemma run_in_process_produces (data_list : list A) (s s' : S)
    (results : list (list B)) :
  run_in_process f data_list s = (Ok results, s') ->
  forall y, In y (List.concat results) ->
            exists x, In x data_list /\ produced x y.
Proof.
  revert s results. induction data_list as [|x r IH]; intros s results;
    cbn [run_in_process].
  - intros [= <- <-] y [].
  - unfold mbind. destruct (f x s) as [[y0|e] s1] eqn:F; [|discriminate].
    destruct (run_in_process f r s1) as [[ys|e] s2] eqn:R; [|discriminate].
    intros [= <- <-] y I. cbn [List.concat] in I.
    apply in_app_or in I. destruct I as [I|I].
    + exists x. split; [now left|]. eapply f_produces; eassumption.
    + destruct (IH _ _ R y I) as (x' & Ix & P). exists x'. split; [now right|exact P].
Qed.

Lemma run_in_pool_produces (data_list : list A) (s s' : S)
    (futures : list (result (list B))) :
  run_in_pool f data_list s = (futures, s') ->
  forall y, In y (List.concat (results_of futures)) ->
            exists x, In x data_list /\ produced x y.
Proof.
  revert s futures. induction data_list as [|x r IH]; intros s futures;
    cbn [run_in_pool].
  - intros [= <- <-] y [].
  - destruct (f x s) as [y0 s1] eqn:F.
    destruct (run_in_pool f r s1) as [ys s2] eqn:R.
    intros [= <- <-] y I.
    assert (T : forall y, In y (List.concat (results_of ys)) ->
                          exists x', In x' (x :: r) /\ produced x' y).
    { intros y' I'. destruct (IH _ _ R y' I') as (x' & Ix & P).
      exists x'. split; [now right|exact P]. }
    destruct y0 as [[|b bs]|e]; cbn [results_of] in I; try (now apply T).
    cbn [List.concat] in I. apply in_app_or in I. destruct I as [I|I].
    + exists x. split; [now left|]. eapply f_produces; eassumption.
    + now apply T.
Qed.

Lemma execute_produces (single : bool) (data_list : list A) (s s' : S)
    (names : list B) :
  execute_data_processing_function f single data_list s = (Ok names, s') ->
  forall y, In y names -> exists x, In x data_list /\ produced x y.
Proof.
  unfold execute_data_processing_function.
  destruct data_list as [|x r]; [intros [= <- <-] y []|].
  destruct single.
  - unfold mbind. destruct (run_in_process f (x :: r) s) as [[results|e] s1] eqn:R;
      [|discriminate].
    intros [= <- <-]. eapply run_in_process_produces, R.
  - destruct (run_in_pool f (x :: r) s) as [futures s1] eqn:R.
    intros [= <- <-]. eapply run_in_pool_produces, R.
Qed.
End RunnerFacts.

Lemma cli_process_names (K : blob_codec) (env : environment)
    (load : str -> option device_data) (session : Info.t -> result device_data)
    (timestamp : Z) (force_backup test_run : bool) (device_info : Info.t)
    (w : storage) (names : list str) (w' : storage) :
  cli_process K env load session timestamp force_backup test_run device_info w
  = (Ok names, w') ->
  forall y, In y names -> y = Info.device_name device_info.
Proof.
  unfold cli_process. intros H. apply exception_handler_ok in H.
  apply mbind_ok in H. destruct H as (d & w1 & _ & H).
  apply mbind_ok in H. destruct H as (u & w2 & _ & H).
  cbn [ret] in H. inversion H. subst. intros y [<-|[]]. reflexivity.
Qed.

(** ** Claim C5 *)

(** C5: whenever a backup run gets as far as its lists of device names,
    the successful and the failed list split the requested list: a name is
    requested if and only if it is in one of the two lists, and no name is
    in both. *)
Theorem run_backup_partition (K : blob_codec) (o : surroundings)
    (arguments : Args.t) (w w' : storage) (device_info_list : list Info.t)
    (requested successful failed : list str) :
  run_backup K o arguments w
  = (Ok (device_info_list, (requested, successful, failed)), w') ->
  partition_of requested successful failed.
Proof.
  unfold run_backup, mbind.
  destruct (create_tables o) as [[]|e]; [|discriminate].
  destruct (read_info_list_file (inventory o)) as [|i0 infos]; [discriminate|].
  destruct (sorted (get_requested_device_name_list (re_search o) (i0 :: infos)
                      arguments)) as [|r0 req] eqn:Rq; [discriminate|].
  match goal with
  | |- context [execute_data_processing_function ?f ?m ?l w] =>
      destruct (execute_data_processing_function f m l w) as [[names|e] w1] eqn:X;
        [|discriminate]
  end.
  cbn [ret]. intros H. inversion H. subst. clear H.
  assert (Sub : forall name, In name (sorted names) -> In name (r0 :: req)).
  { intros name I. apply (proj1 (sorted_In _ _)) in I.
    destruct (execute_produces _ (fun info y => y = Info.device_name info)
                (cli_process_names _ _ _ _ _ _ _) _ _ _ _ _ X name I)
      as (info & Ii & ->).
    apply filter_In in Ii. destruct Ii as [_ Mi]. now apply mem_In. }
  assert (D : forall name,
             In name (sorted (set_difference (r0 :: req) (sorted names)))
             <-> In name (r0 :: req) /\ ~ In name (sorted names)).
  { intros name. split.
    - intros I. apply (proj1 (sorted_In _ _)) in I.
      now apply set_difference_In.
    - intros I. apply (proj2 (sorted_In _ _)). now apply set_difference_In. }
  split.
  - intros name. rewrite D. split.
    + intros I. destruct (in_dec (list_eq_dec Z.eq_dec) name (sorted names));
        [now left|right; now split].
    + intros [I|[I _]]; [now apply Sub|exact I].
  - intros name [I J]. apply D in J. tauto.
Qed.

Lemma run_backup_partition_witness :
  partition_of [lit "fw1"; lit "rtr1"] [lit "rtr1"] [lit "fw1"].
Proof.
  apply (run_backup_partition hex_codec
           (sample_surroundings (FileHolds [sample_device; second_device]))
           (select_all false true) fresh_storage fresh_storage
           [sample_device; second_device]).
  vm_compute. reflexivity.
Defined.

(** ** The driver *)

Lemma sorted_nil_inv (l : list str) : sorted l = [] -> l = [].
Proof.
  destruct l as [|x r]; [reflexivity|]. intros E. exfalso.
  assert (I : In x (sorted (x :: r))) by (apply sorted_In; now left).
  rewrite E in I. destruct I.
Qed.

(** With the process pool the runner always returns. *)
Lemma execute_in_pool_returns {S A B} (f : A -> M S (list B))
    (data_list : list A) (s : S) :
  exists names s',
    execute_data_processing_function f false data_list s = (Ok names, s').
Proof.
  unfold execute_data_processing_function. destruct data_list as [|x r].
  - now exists [], s.
  - destruct (run_in_pool f (x :: r) s) as [futures s'].
    now exists (List.concat (results_of futures)), s'.
Qed.

Lemma run_backup_in_pool (K : blob_codec) (o : surroundings)
    (arguments : Args.t) (w : storage) :
  create_tables o = Ok tt ->
  Args.single_process arguments = false ->
  run_backup K o arguments w = (Raise (SystemExit None), w) \/
  exists lists w1, run_backup K o arguments w = (Ok lists, w1).
Proof.
  intros C P. unfold run_backup, mbind. rewrite C, P.
  destruct (read_info_list_file (inventory o)) as [|i0 infos]; [now left|].
  destruct (sorted _) as [|r0 req]; [now left|].
  match goal with
  | |- context [execute_data_processing_function ?f false ?l w] =>
      destruct (execute_in_pool_returns f l w) as (names & w1 & ->)
  end.
  right. cbn [ret]. do 2 eexists. reflexivity.
Qed.

(** ** Claim C8 *)

(** C8 (amended): once the storage tables are set up, the backup program
    exits with status 0 when the inventory file is missing, unreadable or
    empty and when no requested device is valid; and with the process pool
    (the default mode) it exits with status 0 however many devices failed,
    unless the final write of the job status, the one the run itself makes
    with its own lists in the state the devices left, raises: then the
    status is 1 when the exception is the [CustomException] of [write]. *)
Theorem backup_program_exit_status (K : blob_codec) (o : surroundings)
    (arguments : Args.t) (w : storage) :
  create_tables o = Ok tt ->
  (read_info_list_file (inventory o) = [] ->
   backup_program K o arguments w = 0) /\
  (get_requested_device_name_list (re_search o)
     (read_info_list_file (inventory o)) arguments = [] ->
   backup_program K o arguments w = 0) /\
  (Args.single_process arguments = false ->
   backup_program K o arguments w = 0 \/
   (Args.test_run arguments = false /\
    exists device_info_list requested successful failed w1 e w2,
      run_backup K o arguments w
      = (Ok (device_info_list, (requested, successful, failed)), w1) /\
      save_final_status K (storage_env o) device_info_list (clock o)
                        successful failed w1 = (Raise e, w2) /\
      (forall message, e = CustomException message ->
                       backup_program K o arguments w = 1))).
Proof.
  intros C. split; [|split].
  - intros E. unfold backup_program, main, exception_handler, mbind, run_backup,
      mbind. rewrite C, E. reflexivity.
  - unfold backup_program, main, exception_handler, mbind, run_backup,
      mbind. rewrite C.
    destruct (read_info_list_file (inventory o)) as [|i0 infos];
      [reflexivity|].
    intros E. rewrite E. reflexivity.
  - intros P. unfold backup_program, main, exception_handler, mbind.
    destruct (run_backup_in_pool K o arguments w C P)
      as [->|([infos [[req succ] failed]] & w1 & ->)]; [now left|].
    destruct (Args.test_run arguments); cbn [negb ret]; [now left|].
    destruct (save_final_status K (storage_env o) infos (clock o) succ failed w1)
      as [[[]|e] w2] eqn:W.
    + now left.
    + right. split; [reflexivity|].
      exists infos, req, succ, failed, w1, e, w2.
      split; [reflexivity|]. split; [exact W|].
      intros message ->. reflexivity.
Qed.

Lemma backup_program_exit_status_witness :
  backup_program hex_codec
    (sample_surroundings (FileHolds [sample_device; second_device]))
    (select_all false false) fresh_storage = 0.
Proof.
  destruct (backup_program_exit_status hex_codec
              (sample_surroundings (FileHolds [sample_device; second_device]))
              (select_all false false) fresh_storage eq_refl)
    as (_ & _ & H).
  destruct (H eq_refl)
    as [E|(_ & infos & req & succ & failed & w1 & e & w2 & R & W & _)];
    [exact E|].
  vm_compute in R. inversion R; subst. vm_compute in W. discriminate W.
Defined.

(** In that run one of the two devices failed. *)
Example pool_run_with_failure :
  exists device_info_list w1,
    run_backup hex_codec
      (sample_surroundings (FileHolds [sample_device; second_device]))
      (select_all false false) fresh_storage
    = (Ok (device_info_list,
           ([lit "fw1"; lit "rtr1"], [lit "rtr1"], [lit "fw1"])), w1).
Proof. do 2 eexists. vm_compute. reflexivity. Qed.

(** With the process pool, a refused write of the job status ends the
    program with status 1. *)
Example pool_status_write_refused_exit :
  backup_program hex_codec status_refusing_surroundings
                 (select_all false false) fresh_storage = 1.
Proof. vm_compute. reflexivity. Qed.

(** The claim as first worded fails: the inventory file cannot be read and
    the program exits with status 0. *)
Lemma backup_program_counterexample :
  read_info_list_file (inventory (sample_surroundings FileUnreadable)) = [] /\
  backup_program hex_codec (sample_surroundings FileUnreadable)
                 (select_all false false) fresh_storage = 0.
Proof. split; reflexivity. Qed.

(** In the single-process mode the failure of one device ends the program
    with status 1. *)
Example single_process_failure_exit :
  backup_program hex_codec
    (sample_surroundings (FileHolds [sample_device; second_device]))
    (select_all true true) fresh_storage = 1.
Proof. reflexivity. Qed.

(** ** Claim C7 *)

(** C7: in password authentication, once the password prompt is reached:
    if the device shows its CLI prompt after the first password, the
    session is open; if it asks for the password again, the session sleeps
    5 seconds and sends the password a second time, and then either the CLI
    prompt arrives and the session is open, or the device asks once more
    and [open_cli] raises the authentication failure; no third password is
    sent. *)
Theorem open_cli_password_retry (self : Cli.t) (t0 t1 : terminal)
    (rest : list expect_result) :
  Cli.auth self = lit "password" ->
  password_connect self t0 = (Ok tt, t1) ->
  let send := SendLine (Cli.password self) in
  (script t1 = Matched 0 :: rest ->
   open_cli self t0 = (Ok tt, advanced t1 rest [send])) /\
  (script t1 = Matched 1 :: Matched 0 :: rest ->
   open_cli self t0 = (Ok tt, advanced t1 rest [send; Sleep 5; send])) /\
  (script t1 = Matched 1 :: Matched 1 :: rest ->
   open_cli self t0
   = (Raise (CustomException "Cannot login with supplied credentials"),
      advanced t1 rest [send; Sleep 5; send])).
Proof.
  intros A C send.
  assert (O : open_cli self t0
              = cli_exception_handler (password_attempts self [false; true]) t1).
  { unfold open_cli. rewrite A. cbn [str_eqb]. rewrite str_eqb_refl.
    unfold cli_exception_handler, mbind. rewrite C. reflexivity. }
  rewrite O. unfold cli_exception_handler, advanced.
  destruct t1 as [s a]. cbn [script actions].
  split; [|split]; intros ->; cbn; rewrite <- ?app_assoc; reflexivity.
Qed.

Lemma open_cli_password_retry_witness :
  open_cli sample_cli retry_then_prompt
  = (Ok tt,
     {| script := [];
        actions := [Spawn (lit "ssh -o PubkeyAuthentication=no -l netcat rtr1");
                    SendLine (lit "secret"); Sleep 5; SendLine (lit "secret")] |}).
Proof.
  exact (proj1 (proj2
    (open_cli_password_retry sample_cli retry_then_prompt
       {| script := [Matched 1; Matched 0];
          actions := [Spawn (lit "ssh -o PubkeyAuthentication=no -l netcat rtr1")] |}
       [] eq_refl eq_refl)) eq_refl).
Defined.

(** ** Checks on concrete inputs *)

(** A string that UTF-8 cannot encode has no key. *)
Lemma encode_command_rejects (s : str) :
  ~ Forall scalar_value s -> encode_command s = None.
Proof.
  intros N. unfold encode_command.
  destruct (utf8_encode s) as [b|] eqn:E; [|reflexivity].
  exfalso. apply N. eapply utf8_encode_some, E.
Qed.

Example encode_command_show_run :
  encode_command (lit "show run") = Some (lit "milnlfmmhpmhmkle").
Proof. reflexivity. Qed.

Example encode_command_lone_surrogate : encode_command [55296] = None.
Proof. reflexivity. Qed.

Example split_trailing_newline :
  split 10 (lit "a" ++ [10] ++ lit "b" ++ [10]) = [lit "a"; lit "b"; []].
Proof. reflexivity. Qed.

(** The boundaries of the change detector. *)
Example compare_time_line_only :
  compare_command_outputs (running_config (lit "11:00"))
                          (running_config (lit "12:00")) = true.
Proof. reflexivity. Qed.

Example compare_line_counts_differ :
  compare_command_outputs (running_config (lit "11:00"))
                          (running_config (lit "11:00") ++ lit "end" ++ [10])
  = false.
Proof. reflexivity. Qed.

Example compare_other_line_differs :
  compare_command_outputs (lit "hostname rtr1" ++ [10])
                          (lit "hostname rtr2" ++ [10]) = false.
Proof. reflexivity. Qed.

Example detect_without_previous :
  detect_config_change (fun _ => Some empty_data) (snapshot_at (lit "12:00"))
  = Some true.
Proof. reflexivity. Qed.

(** The first backup goes to both tables, a backup without a change to the
    info table only, a forced one to both. *)
Example first_time_backup :
  tables_written empty_data false = [DBT_BACKUP; DBT_INFO].
Proof. vm_compute. reflexivity. Qed.

Example no_change_backup :
  tables_written (snapshot_at (lit "11:00")) false = [DBT_INFO].
Proof. vm_compute. reflexivity. Qed.

Example forced_backup :
  tables_written (snapshot_at (lit "11:00")) true = [DBT_BACKUP; DBT_INFO].
Proof. vm_compute. reflexivity. Qed.

(** * Properties beyond the claims *)

(** ** The command-name codec *)

(** X1: [encode_command] is injective: two command names that are given
    the same key are the same name, so no two commands of a format can fall
    on one key of the compressed document. *)
Theorem encode_command_injective (a b e : str) :
  encode_command a = Some e -> encode_command b = Some e -> a = b.
Proof.
  intros Ha Hb. apply encode_command_inv in Ha, Hb. congruence.
Qed.

Lemma encode_command_injective_witness : lit "show run" = lit "show run".
Proof.
  apply (encode_command_injective (lit "show run") (lit "show run")
           (lit "milnlfmmhpmhmkle")); reflexivity.
Defined.

(** ** The comparison of outputs *)

Lemma compare_lines_diag (l : list str) : compare_lines (combine l l) = true.
Proof.
  induction l as [|a r IH]; cbn [combine compare_lines]; [reflexivity|].
  now rewrite str_eqb_refl.
Qed.

(** X2: [compare_command_outputs] is reflexive: an output compared with
    itself is reported as the same, whatever it holds. *)
Theorem compare_command_outputs_refl (a : str) :
  compare_command_outputs a a = true.
Proof.
  unfold compare_command_outputs. cbv zeta.
  rewrite Nat.eqb_refl. cbn [negb]. apply compare_lines_diag.
Qed.

(** ** The storage write, for every environment *)

Lemma write_loop_bounded (env : environment) (table_name : str)
    (item : document) (attempts : nat) (w : storage) :
  (forall i, 0 <= random env i /\ random env i < 1)%Q ->
  exists new,
    sleeps (snd (write_loop env table_name item 10 attempts w))
      = sleeps w ++ new /\
    Forall in_backoff_range new /\
    (List.length new <= attempts)%nat /\
    (put_item_calls (snd (write_loop env table_name item 10 attempts w))
       <= put_item_calls w + attempts)%nat /\
    (put_item_calls w + List.length new
       <= put_item_calls (snd (write_loop env table_name item 10 attempts w)))%nat /\
    (put_item_calls (snd (write_loop env table_name item 10 attempts w))
       <= put_item_calls w + List.length new + 1)%nat.
Proof.
  intros R. revert w. induction attempts as [|a IH]; intros w; cbn [write_loop].
  - exists []. cbn [snd List.length]. rewrite app_nil_r.
    repeat split; try constructor; lia.
  - destruct (put_item_outcome env (put_item_calls w)) as [|e].
    + exists []. cbn [snd put_item_calls sleeps List.length]. rewrite app_nil_r.
      repeat split; try constructor; lia.
    + assert (Stop : forall r : result unit,
                exists new,
                  sleeps (snd (r, {| put_item_calls := S (put_item_calls w);
                                     items := items w; sleeps := sleeps w |}))
                    = sleeps w ++ new /\
                  Forall in_backoff_range new /\
                  (List.length new <= S a)%nat /\
                  (put_item_calls
                     (snd (r, {| put_item_calls := S (put_item_calls w);
                                 items := items w; sleeps := sleeps w |}))
                     <= put_item_calls w + S a)%nat /\
                  (put_item_calls w + List.length new
                     <= put_item_calls
                          (snd (r, {| put_item_calls := S (put_item_calls w);
                                      items := items w; sleeps := sleeps w |})))%nat /\
                  (put_item_calls
                     (snd (r, {| put_item_calls := S (put_item_calls w);
                                 items := items w; sleeps := sleeps w |}))
                     <= put_item_calls w + List.length new + 1)%nat).
      { intros r. exists []. cbn [snd put_item_calls sleeps List.length].
        rewrite app_nil_r. repeat split; try constructor; lia. }
      destruct e; try apply Stop.
      destruct (negb (throttling code)); [apply Stop|].
      match goal with
      | |- context [write_loop env table_name item 10 a ?w1] =>
          remember w1 as w1' eqn:Ew
      end.
      assert (Ec : put_item_calls w1' = S (put_item_calls w))
        by (subst w1'; reflexivity).
      assert (Es : sleeps w1'
                   = sleeps w
                     ++ [uniform (1 # 10) 10
                           (random env (List.length (sleeps w)))])
        by (subst w1'; reflexivity).
      destruct (IH w1') as (new & S1 & F1 & L1 & C1 & C2 & C3).
      exists (uniform (1 # 10) 10 (random env (List.length (sleeps w))) :: new).
      split; [rewrite S1, Es, <- app_assoc; reflexivity|].
      split.
      { constructor; [|exact F1].
        destruct (R (List.length (sleeps w))). apply uniform_range; lra. }
      cbn [List.length]. repeat split; lia.
Qed.

(** X3: whatever [put_item] does, [write] calls it at most 15 times and
    sleeps at most 15 times, each sleep between 0.1 and 10 seconds and each
    after a call of its own; so a write never waits longer than 150
    seconds in all. *)
Theorem write_bounded (K : blob_codec) (env : environment)
    (table_name : str) (doc : document) (w : storage) :
  (forall i, 0 <= random env i /\ random env i < 1)%Q ->
  let w' := snd (write K env table_name doc w) in
  exists new,
    sleeps w' = sleeps w ++ new /\
    Forall in_backoff_range new /\
    (List.length new <= 15)%nat /\
    (put_item_calls w' <= put_item_calls w + 15)%nat /\
    (put_item_calls w + List.length new <= put_item_calls w')%nat /\
    (put_item_calls w' <= put_item_calls w + List.length new + 1)%nat.
Proof.
  intros R. cbv zeta. unfold write, write_with, mbind, lift.
  destruct (prepare_item K table_name doc) as [item|]; cbn [ret raise].
  - apply write_loop_bounded, R.
  - exists []. cbn [snd List.length]. rewrite app_nil_r.
    repeat split; try constructor; lia.
Qed.

Lemma write_bounded_witness :
  exists new,
    sleeps (snd (write hex_codec throttling_thrice DBT_INFO
                   (DeviceDocument sample_snapshot) fresh_storage))
      = new /\
    (List.length new <= 15)%nat.
Proof.
  destruct (write_bounded hex_codec throttling_thrice DBT_INFO
              (DeviceDocument sample_snapshot) fresh_storage)
    as (new & S & _ & L & _).
  - intros i. cbn. lra.
  - exists new. split; [exact S|exact L].
Defined.

(** X4: [write] stores the item once or not at all: when it returns, the
    table has gained exactly the prepared item, however many attempts were
    throttled before; when it raises, the tables are as they were. *)
Theorem write_stores_once (K : blob_codec) (env : environment)
    (table_name : str) (doc : document) (w : storage) :
  match write K env table_name doc w with
  | (Ok _, w') =>
      exists item, prepare_item K table_name doc = Some item /\
                   items w' = items w ++ [(table_name, item)]
  | (Raise _, w') => items w' = items w
  end.
Proof.
  unfold write, write_with, mbind, lift.
  destruct (prepare_item K table_name doc) as [item|]; cbn [ret raise];
    [|reflexivity].
  destruct (write_loop env table_name item 10 15 w) as [r w'] eqn:E.
  apply write_loop_items in E. destruct r; [|exact E]. now exists item.
Qed.

(** ** The process of one device *)

(** X5: in a test run [cli_process] leaves the storage as it is, whatever
    the device returns and whatever the storage would answer; and its
    result then only tells whether the snapshot could be retrieved: the
    name of the device if it could, an exception if not. *)
Theorem cli_process_test_run_reads_only (K : blob_codec) (env : environment)
    (load : str -> option device_data) (session : Info.t -> result device_data)
    (timestamp : Z) (force_backup : bool) (device_info : Info.t) (w : storage) :
  snd (cli_process K env load session timestamp force_backup true device_info w)
  = w /\
  (fst (cli_process K env load session timestamp force_backup true device_info w)
   = Ok [Info.device_name device_info]
   <-> exists snapshot, get_device_data session device_info = Ok snapshot).
Proof.
  unfold cli_process, exception_handler, mbind. cbn [negb ret].
  destruct (get_device_data session device_info) as [d|e].
  - cbn [fst snd]. split; [reflexivity|]. split; [intros _; now exists d|reflexivity].
  - split; [destruct e; reflexivity|]. split.
    + destruct e; discriminate.
    + intros (d & E). discriminate.
Qed.

(** X6: a device whose type starts with none of [paloalto], [cisco] and
    [f5] is refused before any session is opened: [cli_process] ends with
    [sys.exit(1)] and the storage is untouched, in a test run or not. *)
Theorem cli_process_unsupported_type (K : blob_codec) (env : environment)
    (load : str -> option device_data) (session : Info.t -> result device_data)
    (timestamp : Z) (force_backup test_run : bool) (device_info : Info.t)
    (w : storage) :
  startswith (Info.device_type device_info) (lit "paloalto") = false ->
  startswith (Info.device_type device_info) (lit "cisco") = false ->
  startswith (Info.device_type device_info) (lit "f5") = false ->
  cli_process K env load session timestamp force_backup test_run device_info w
  = (Raise (SystemExit (Some 1)), w).
Proof.
  intros P C F. unfold cli_process, exception_handler, mbind, get_device_data.
  rewrite P, C, F. reflexivity.
Qed.

Lemma cli_process_unsupported_type_witness :
  cli_process hex_codec throttling_thrice (fun _ => Some empty_data)
              (fun _ => Ok sample_snapshot) 1600000000 false false
              unsupported_device fresh_storage
  = (Raise (SystemExit (Some 1)), fresh_storage).
Proof.
  apply (cli_process_unsupported_type hex_codec throttling_thrice
           (fun _ => Some empty_data) (fun _ => Ok sample_snapshot)
           1600000000 false false unsupported_device fresh_storage);
    reflexivity.
Defined.

(** ** The fleet runner, in both modes *)

Section RunnerModes.
Context {S A B : Type}.
Variable f : A -> M S (list B).

Lemma run_in_pool_app (l1 l2 : list A) (s : S) :
  run_in_pool f (l1 ++ l2) s
  = (fst (run_in_pool f l1 s) ++ fst (run_in_pool f l2 (snd (run_in_pool f l1 s))),
     snd (run_in_pool f l2 (snd (run_in_pool f l1 s)))).
Proof.
  revert s. induction l1 as [|x r IH]; intros s; cbn [app run_in_pool].
  - cbn [fst snd app]. now destruct (run_in_pool f l2 s).
  - destruct (f x s) as [y s1]. rewrite IH.
    destruct (run_in_pool f r s1) as [ys s2]. reflexivity.
Qed.

Lemma results_of_app (a b : list (result (list B))) :
  results_of (a ++ b) = results_of a ++ results_of b.
Proof.
  induction a as [|x r IH]; [reflexivity|].
  destruct x as [[|y ys]|e]; cbn [app results_of]; try exact IH.
  now rewrite IH.
Qed.
End RunnerModes.

(** X8: in the single-process mode the first call that raises ends the run
    with its exception, in the state it left: the entries after it are not
    processed. *)
Theorem execute_in_process_stops {S A B} (f : A -> M S (list B))
    (before after : list A) (x : A) (s s1 s2 : S)
    (results : list (list B)) (e : exn) :
  run_in_process f before s = (Ok results, s1) ->
  f x s1 = (Raise e, s2) ->
  execute_data_processing_function f true (before ++ x :: after) s
  = (Raise e, s2).
Proof.
  intros Hb Hx.
  assert (R : run_in_process f (before ++ x :: after) s = (Raise e, s2)).
  { revert s results Hb. induction before as [|y r IH]; intros s results;
      cbn [app run_in_process].
    - intros H. inversion H. subst. unfold mbind. now rewrite Hx.
    - unfold mbind. destruct (f y s) as [[y0|e0] s0]; [|discriminate].
      destruct (run_in_process f r s0) as [[ys|e0] s3] eqn:R; [|discriminate].
      intros H. inversion H. subst. rewrite (IH _ _ R). reflexivity. }
  unfold execute_data_processing_function.
  destruct (before ++ x :: after) as [|z zs] eqn:L.
  - destruct before; discriminate.
  - unfold mbind. now rewrite R.
Qed.

Lemma execute_in_process_stops_witness :
  execute_data_processing_function
    (fun x : Z => if x =? 0 then raise (S := unit) KeyboardInterrupt
                  else ret [x])
    true ([3] ++ 0 :: [4]) tt
  = (Raise KeyboardInterrupt, tt).
Proof.
  apply (execute_in_process_stops
           (fun x : Z => if x =? 0 then raise (S := unit) KeyboardInterrupt
                         else ret [x])
           [3] [4] 0 tt tt tt [[3]] KeyboardInterrupt); reflexivity.
Defined.

(** X9: in the process pool a call that raises costs only its own result:
    the entries before and after it are processed all the same, and the
    list returned is theirs, in the order of the list. *)
Theorem execute_in_pool_skips_failure {S A B} (f : A -> M S (list B))
    (before after : list A) (x : A) (s s1 s2 s3 : S)
    (names_before names_after : list B) (e : exn) :
  execute_data_processing_function f false before s = (Ok names_before, s1) ->
  f x s1 = (Raise e, s2) ->
  execute_data_processing_function f false after s2 = (Ok names_after, s3) ->
  execute_data_processing_function f false (before ++ x :: after) s
  = (Ok (names_before ++ names_after), s3).
Proof.
  assert (P : forall l t,
             execute_data_processing_function f false l t
             = (Ok (List.concat (results_of (fst (run_in_pool f l t)))),
                snd (run_in_pool f l t))).
  { intros l t. unfold execute_data_processing_function.
    destruct l as [|y r]; [reflexivity|].
    now destruct (run_in_pool f (y :: r) t). }
  rewrite !P. intros Hb Hx Ha. inversion Hb as [[Nb Sb]].
  rewrite run_in_pool_app. cbn [fst snd]. rewrite Sb.
  cbn [run_in_pool]. rewrite Hx.
  inversion Ha as [[Na Sa]].
  destruct (run_in_pool f after s2) as [ys s4]. cbn [fst snd] in *.
  rewrite results_of_app, concat_app. cbn [results_of]. reflexivity.
Qed.

Lemma execute_in_pool_skips_failure_witness :
  execute_data_processing_function
    (fun x : Z => if x =? 0 then raise (S := unit) KeyboardInterrupt
                  else ret [x])
    false ([3] ++ 0 :: [4]) tt
  = (Ok ([3] ++ [4]), tt).
Proof.
  apply (execute_in_pool_skips_failure
           (fun x : Z => if x =? 0 then raise (S := unit) KeyboardInterrupt
                         else ret [x])
           [3] [4] 0 tt tt tt tt [3] [4] KeyboardInterrupt); reflexivity.
Defined.

(** ** The selection of devices *)

Lemma select_by_regexp_filter (re : str -> str -> option bool) (pattern : str)
    (infos : list Info.t) (names : list str) :
  select_by_regexp re pattern infos = Some names ->
  names = map Info.device_name
            (filter (fun info =>
                       match re pattern (Info.device_name info) with
                       | Some found => found
                       | None => false
                       end) infos).
Proof.
  revert names. induction infos as [|i r IH]; intros names; cbn [select_by_regexp].
  - intros [= <-]. reflexivity.
  - destruct (re pattern (Info.device_name i)) as [found|] eqn:F; [|discriminate].
    destruct (select_by_regexp re pattern r) as [rest|]; [|discriminate].
    cbn [bind]. intros [= <-]. cbn [filter]. rewrite F, (IH rest eq_refl).
    destruct found; reflexivity.
Qed.

(** X10: whatever the options and the pattern, the names that
    [get_requested_device_name_list] returns are those of the inventory
    records that pass one test on the record: in the order of the
    inventory, none added and none more often than the inventory has it. *)
Theorem requested_names_are_filtered (re : str -> str -> option bool)
    (device_info_list : list Info.t) (args : Args.t) :
  exists keep : Info.t -> bool,
    get_requested_device_name_list re device_info_list args
    = map Info.device_name (filter keep device_info_list).
Proof.
  assert (N : exists keep : Info.t -> bool,
             @nil str = map Info.device_name (filter keep device_info_list)).
  { exists (fun _ => false).
    induction device_info_list as [|i r IH]; [reflexivity|exact IH]. }
  unfold get_requested_device_name_list.
  destruct (Args.all args).
  { exists (fun _ => true). f_equal. clear N.
    induction device_info_list as [|i r IH]; [reflexivity|].
    cbn [filter]. now rewrite <- IH. }
  destruct (match Args.group args with
            | Some g => mem g SUPPORTED_DEVICE_TYPES
            | None => false
            end); [eexists; reflexivity|].
  destruct (Args.device args) as [[|d ds]|].
  2:{ eexists; reflexivity. }
  all: destruct (Args.regexp args) as [[|c pattern]|]; try exact N.
  all: destruct (select_by_regexp re (c :: pattern) device_info_list)
         as [names|] eqn:E; try exact N.
  all: eexists; apply (select_by_regexp_filter _ _ _ _ E).
Qed.

(** X11: a pattern that does not compile selects nothing and raises
    nothing: the selection is empty, and so the backup program logs the
    error and ends with [sys.exit()] before any session or write. *)
Theorem malformed_regexp_selects_nothing (K : blob_codec) (o : surroundings)
    (args : Args.t) (c : Z) (pattern : str) (w : storage) :
  Args.all args = false -> Args.group args = None ->
  Args.device args = None -> Args.regexp args = Some (c :: pattern) ->
  (forall name, re_search o (c :: pattern) name = None) ->
  create_tables o = Ok tt ->
  read_info_list_file (inventory o) <> [] ->
  get_requested_device_name_list (re_search o)
    (read_info_list_file (inventory o)) args = [] /\
  main K o args w = (Raise (SystemExit None), w).
Proof.
  intros Ha Hg Hd Hr Hre Hc Hi.
  assert (E : get_requested_device_name_list (re_search o)
                (read_info_list_file (inventory o)) args = []).
  { unfold get_requested_device_name_list. rewrite Ha, Hg, Hd, Hr.
    destruct (read_info_list_file (inventory o)) as [|i r]; [congruence|].
    cbn [select_by_regexp]. rewrite Hre. reflexivity. }
  split; [exact E|].
  unfold main, exception_handler, mbind, run_backup, mbind. rewrite Hc.
  destruct (read_info_list_file (inventory o)) as [|i r]; [congruence|].
  rewrite E. reflexivity.
Qed.

Lemma malformed_regexp_selects_nothing_witness :
  main hex_codec no_pattern_compiles (select_regexp (lit "rtr[")) fresh_storage
  = (Raise (SystemExit None), fresh_storage).
Proof.
  refine (proj2 (malformed_regexp_selects_nothing hex_codec no_pattern_compiles
                   (select_regexp (lit "rtr[")) 114 (lit "tr[") fresh_storage
                   eq_refl eq_refl eq_refl eq_refl _ eq_refl _)).
  - reflexivity.
  - discriminate.
Defined.

(** ** Opening the CLI session, for every answer of the device *)

(** Follow [open_cli] along one more answer of the device. *)
Ltac cli_step :=
  match goal with
  | |- context [match ?s with _ => _ end] =>
      is_var s;
      lazymatch type of s with
      | list expect_result => destruct s as [|[?| |?] ?]
      | _ => destruct s
      end
  | |- context [?i =? ?k] =>
      is_var i; destruct (Z.eqb_spec i k); [subst i|]
  | |- context [find ?m ?p >=? 0] => destruct (find m p >=? 0)
  end;
  unfold mbind, act, expect, ret, raise;
  cbn [script actions password_attempts rsa_attempts
       fst snd andb negb Z.eqb Pos.eqb].

Ltac cli_cases :=
  unfold cli_exception_handler, password_connect;
  cbn [password_attempts rsa_attempts];
  unfold mbind, act, expect, ret, raise;
  cbn [script actions fst snd andb negb Z.eqb Pos.eqb];
  repeat cli_step.

(** X12: in password authentication [open_cli] never sends the password
    more than twice and never sleeps more than once, whatever the device
    answers and however the attempt ends: after the spawn it sends at most
    one [yes] to the host-key question, and then nothing, the password, or
    the password, a sleep of 5 seconds and the password again. *)
Theorem open_cli_password_actions (self : Cli.t) (t : terminal) :
  Cli.auth self = lit "password" ->
  let send := SendLine (Cli.password self) in
  exists yes pw,
    actions (snd (open_cli self t))
    = actions t ++ [Spawn (ssh_command (lit "no") self)] ++ yes ++ pw /\
    (yes = [] \/ yes = [SendLine (lit "yes")]) /\
    (pw = [] \/ pw = [send] \/ pw = [send; Sleep 5; send]).
Proof.
  intros A send. unfold open_cli. rewrite A, str_eqb_refl.
  destruct t as [sc acts]. unfold ssh_command.
  cli_cases;
    rewrite <- ?app_assoc; cbn [app];
    first
      [ exists [], []; split; [reflexivity|]; split; [now left|now left]
      | exists [], [send]; split; [reflexivity|]; split; [now left|right; now left]
      | exists [], [send; Sleep 5; send]; split; [reflexivity|];
          split; [now left|right; now right]
      | exists [SendLine (lit "yes")], []; split; [reflexivity|];
          split; [now right|now left]
      | exists [SendLine (lit "yes")], [send]; split; [reflexivity|];
          split; [now right|right; now left]
      | exists [SendLine (lit "yes")], [send; Sleep 5; send];
          split; [reflexivity|]; split; [now right|right; now right] ].
Qed.

Lemma open_cli_password_actions_witness :
  exists yes pw,
    actions (snd (open_cli sample_cli retry_then_prompt))
    = actions retry_then_prompt
      ++ [Spawn (ssh_command (lit "no") sample_cli)] ++ yes ++ pw /\
    (yes = [] \/ yes = [SendLine (lit "yes")]) /\
    (pw = [] \/ pw = [SendLine (Cli.password sample_cli)]
     \/ pw = [SendLine (Cli.password sample_cli); Sleep 5;
              SendLine (Cli.password sample_cli)]).
Proof.
  exact (open_cli_password_actions sample_cli retry_then_prompt eq_refl).
Defined.

(** X13: in key authentication [open_cli] never sends a password: after
    the spawn the only line it may send is one [yes] to the host-key
    question, whatever the device answers; and the session opens exactly
    when the CLI prompt comes first, or right after that one [yes]. *)
Theorem open_cli_rsa_actions (self : Cli.t) (t : terminal) :
  Cli.auth self = lit "rsa" ->
  (exists yes,
     actions (snd (open_cli self t))
     = actions t ++ [Spawn (ssh_command (lit "yes") self)] ++ yes /\
     (yes = [] \/ yes = [SendLine (lit "yes")])) /\
  (fst (open_cli self t) = Ok tt <->
   (exists rest, script t = Matched 0 :: rest) \/
   (exists rest, script t = Matched 1 :: Matched 0 :: rest)).
Proof.
  intros A. unfold open_cli. rewrite A.
  change (str_eqb (lit "rsa") (lit "password")) with false.
  rewrite str_eqb_refl. cbv iota.
  destruct t as [sc acts]. unfold ssh_command. split.
  - cli_cases; rewrite <- ?app_assoc; cbn [app];
      first [ exists []; split; [reflexivity|now left]
            | exists [SendLine (lit "yes")]; split; [reflexivity|now right] ].
  - cli_cases; cbn [script];
      (split;
       [ try discriminate; intros _;
         first [ left; eexists; reflexivity | right; eexists; reflexivity ]
       | try reflexivity;
         intros [(rest & E)|(rest & E)]; try discriminate E;
         injection E; intros; congruence ]).
Qed.

Lemma open_cli_rsa_actions_witness :
  fst (open_cli sample_rsa_cli
         {| script := [Matched 1; Matched 0]; actions := [] |}) = Ok tt.
Proof.
  apply (proj2 (open_cli_rsa_actions sample_rsa_cli
                  {| script := [Matched 1; Matched 0]; actions := [] |}
                  eq_refl)).
  right. exists []. reflexivity.
Defined.

(** X14: [open_cli] lets no [pexpect] exception through: whatever the
    authentication mode and whatever the device answers, it returns, or it
    raises a [CustomException]; the one other exception it can raise is the
    [IndexError] of its own decorator, when the stream ends with a message
    of fewer than six lines. *)
Theorem open_cli_raises_custom (self : Cli.t) (t : terminal) :
  match fst (open_cli self t) with
  | Ok _ => True
  | Raise (CustomException _) => True
  | Raise (PythonError _) => In (EndOfFile None) (script t)
  | Raise _ => False
  end.
Proof.
  unfold open_cli. destruct t as [sc acts].
  destruct (str_eqb (Cli.auth self) (lit "password")).
  - cli_cases; cbn [In]; auto 8.
  - destruct (str_eqb (Cli.auth self) (lit "rsa")).
    + cli_cases; cbn [In]; auto 8.
    + exact I.
Qed.

(** X15: a device that refuses the connection is never sent a password: in
    password authentication [Connection refused] at the first prompt, and
    in key authentication [Connection refused] at the first prompt or after
    the [yes], end [open_cli] with the exception of that name, with nothing
    sent beyond the [yes]. *)
Theorem open_cli_connection_refused (self : Cli.t) (acts : list action)
    (rest : list expect_result) :
  let refused := Raise (CustomException "Connection refused by device") in
  (Cli.auth self = lit "password" ->
   open_cli self {| script := Matched 2 :: rest; actions := acts |}
   = (refused,
      {| script := rest;
         actions := acts ++ [Spawn (ssh_command (lit "no") self)] |})) /\
  (Cli.auth self = lit "rsa" ->
   open_cli self {| script := Matched 3 :: rest; actions := acts |}
   = (refused,
      {| script := rest;
         actions := acts ++ [Spawn (ssh_command (lit "yes") self)] |}) /\
   open_cli self {| script := Matched 1 :: Matched 3 :: rest; actions := acts |}
   = (refused,
      {| script := rest;
         actions := acts ++ [Spawn (ssh_command (lit "yes") self);
                             SendLine (lit "yes")] |})).
Proof.
  cbv zeta. split; intros A; unfold open_cli; rewrite A.
  - rewrite str_eqb_refl. reflexivity.
  - change (str_eqb (lit "rsa") (lit "password")) with false.
    rewrite str_eqb_refl. cbv iota. split.
    + reflexivity.
    + cbn. rewrite <- app_assoc. reflexivity.
Qed.

Lemma open_cli_connection_refused_witness :
  open_cli sample_cli {| script := [Matched 2]; actions := [] |}
  = (Raise (CustomException "Connection refused by device"),
     {| script := [];
        actions := [] ++ [Spawn (ssh_command (lit "no") sample_cli)] |}).
Proof.
  apply (proj1 (open_cli_connection_refused sample_cli [] [])). reflexivity.
Defined.

(** ** Dictionaries: assignment and lookup *)

Lemma dict_get_set_same {V} (d : dict V) (k : str) (v : V) :
  dict_get (dict_set d k v) k = Some v.
Proof.
  induction d as [|[k' v'] r IH]; cbn [dict_set dict_get].
  - now rewrite str_eqb_refl.
  - destruct (str_eqb k' k) eqn:E; cbn [dict_get]; rewrite E; [reflexivity|exact IH].
Qed.

Lemma dict_get_set_other {V} (d : dict V) (k k' : str) (v : V) :
  k <> k' -> dict_get (dict_set d k v) k' = dict_get d k'.
Proof.
  intros N. induction d as [|[k0 v0] r IH]; cbn [dict_set dict_get].
  - apply str_eqb_neq in N. now rewrite N.
  - destruct (str_eqb k0 k) eqn:E; cbn [dict_get].
    + apply str_eqb_eq in E. subst k0. apply str_eqb_neq in N. now rewrite N.
    + destruct (str_eqb k0 k'); [reflexivity|exact IH].
Qed.

(** ** The status document of a job *)

Section FinalStatus.
Variables successful failed : list str.

Let step (acc : dict (str * bool * bool)) (info : Info.t) :=
  match Info.device_name info with
  | [] => acc
  | name =>
      dict_set acc name
        (Info.device_type info, mem name failed, mem name successful)
  end.

Lemma final_dict_entry (infos : list Info.t) (acc : dict (str * bool * bool))
    (name : str) (entry : str * bool * bool) :
  dict_get (fold_left step infos acc) name = Some entry ->
  dict_get acc name = Some entry \/
  (exists info, In info infos /\ Info.device_name info = name /\ name <> [] /\
                entry = (Info.device_type info, mem name failed,
                         mem name successful)).
Proof.
  revert acc. induction infos as [|i r IH]; intros acc; cbn [fold_left].
  - now left.
  - intros H. destruct (IH _ H) as [G|(info & I & E)].
    + unfold step in G. destruct (Info.device_name i) as [|c n] eqn:N;
        [now left|].
      destruct (list_eq_dec Z.eq_dec (c :: n) name) as [<-|D].
      * rewrite dict_get_set_same in G. injection G as <-. right.
        exists i. split; [now left|]. split; [exact N|].
        split; [discriminate|reflexivity].
      * rewrite dict_get_set_other in G by exact D. now left.
    + right. exists info. split; [now right|exact E].
Qed.

Lemma final_dict_keeps (infos : list Info.t) (acc : dict (str * bool * bool))
    (name : str) :
  dict_get acc name <> None -> dict_get (fold_left step infos acc) name <> None.
Proof.
  revert acc. induction infos as [|i r IH]; intros acc H; cbn [fold_left];
    [exact H|].
  apply IH. unfold step. destruct (Info.device_name i) as [|c n]; [exact H|].
  destruct (list_eq_dec Z.eq_dec (c :: n) name) as [<-|D].
  - rewrite dict_get_set_same. discriminate.
  - now rewrite dict_get_set_other by exact D.
Qed.

Lemma final_dict_has (infos : list Info.t) (acc : dict (str * bool * bool))
    (info : Info.t) :
  In info infos -> Info.device_name info <> [] ->
  dict_get (fold_left step infos acc) (Info.device_name info) <> None.
Proof.
  revert acc. induction infos as [|i r IH]; intros acc I N; [destruct I|].
  cbn [fold_left]. destruct I as [->|I]; [|now apply IH].
  apply final_dict_keeps. unfold step.
  destruct (Info.device_name info) as [|c n]; [congruence|].
  rewrite dict_get_set_same. discriminate.
Qed.
End FinalStatus.

(** X16: in the status document that [save_final_status] writes, every
    inventory record with a name has an entry, and every entry belongs to
    such a record; and when the successful and failed lists split the
    requested names, as those of [main] do, the two flags of an entry are
    never both set, exactly one is set for a requested device, and none
    for a device that was not requested. *)
Theorem final_status_flags (device_info_list : list Info.t)
    (requested successful failed : list str) :
  partition_of requested successful failed ->
  let d := final_device_info_dict device_info_list successful failed in
  (forall info, In info device_info_list -> Info.device_name info <> [] ->
                dict_get d (Info.device_name info) <> None) /\
  (forall name type is_failed is_successful,
     dict_get d name = Some (type, is_failed, is_successful) ->
     In name (map Info.device_name device_info_list) /\
     (is_successful = true <-> In name successful) /\
     (is_failed = true <-> In name failed) /\
     is_failed && is_successful = false /\
     (is_failed || is_successful = true <-> In name requested)).
Proof.
  intros [U D] d. split.
  - intros info I N. apply final_dict_has; assumption.
  - intros name type f s G. apply final_dict_entry in G.
    destruct G as [G|(info & I & E & N & V)]; [discriminate|].
    injection V as -> -> ->.
    split; [rewrite <- E; now apply in_map|].
    split; [apply mem_In|]. split; [apply mem_In|]. split.
    + destruct (mem name failed) eqn:F; destruct (mem name successful) eqn:S;
        try reflexivity.
      exfalso. apply (D name). split; now apply mem_In.
    + rewrite orb_true_iff, !mem_In, U. tauto.
Qed.

Lemma final_status_flags_witness :
  dict_get (final_device_info_dict [sample_device; second_device]
              [lit "rtr1"] [lit "fw1"]) (lit "fw1") <> None.
Proof.
  refine (proj1 (final_status_flags [sample_device; second_device]
                   [lit "fw1"; lit "rtr1"] [lit "rtr1"] [lit "fw1"] _)
            second_device _ _).
  - split.
    + intros name. cbn [In]. tauto.
    + intros name [[<-|[]] [E|[]]]. discriminate E.
  - right. now left.
  - discriminate.
Defined.

(** ** What a whole run does to the storage *)

Section RunnerInvariant.
Context {S A B : Type}.
Variable f : A -> M S (list B).
Variable R : S -> S -> Prop.
Hypothesis R_refl : forall s, R s s.
Hypothesis R_trans : forall s1 s2 s3, R s1 s2 -> R s2 s3 -> R s1 s3.
Hypothesis f_keeps : forall x s, R s (snd (f x s)).

Lemma run_in_process_keeps (data_list : list A) (s : S) :
  R s (snd (run_in_process f data_list s)).
Proof.
  revert s. induction data_list as [|x r IH]; intros s; cbn [run_in_process].
  - apply R_refl.
  - unfold mbind. pose proof (f_keeps x s) as Hx.
    destruct (f x s) as [[y|e] s1]; cbn [snd] in Hx; [|exact Hx].
    specialize (IH s1).
    destruct (run_in_process f r s1) as [[ys|e] s2]; cbn [snd ret] in *;
      eapply R_trans; eassumption.
Qed.

Lemma run_in_pool_keeps (data_list : list A) (s : S) :
  R s (snd (run_in_pool f data_list s)).
Proof.
  revert s. induction data_list as [|x r IH]; intros s; cbn [run_in_pool].
  - apply R_refl.
  - pose proof (f_keeps x s) as Hx. destruct (f x s) as [y s1].
    specialize (IH s1). destruct (run_in_pool f r s1) as [ys s2].
    cbn [snd] in *. eapply R_trans; eassumption.
Qed.

Lemma execute_keeps (single : bool) (data_list : list A) (s : S) :
  R s (snd (execute_data_processing_function f single data_list s)).
Proof.
  unfold execute_data_processing_function.
  destruct data_list as [|x r]; [apply R_refl|]. destruct single.
  - unfold mbind. pose proof (run_in_process_keeps (x :: r) s) as H.
    destruct (run_in_process f (x :: r) s) as [[ys|e] s1]; exact H.
  - pose proof (run_in_pool_keeps (x :: r) s) as H.
    destruct (run_in_pool f (x :: r) s) as [ys s1]. exact H.
Qed.
End RunnerInvariant.

Lemma run_backup_keeps (K : blob_codec) (o : surroundings) (args : Args.t)
    (R : storage -> storage -> Prop) (w : storage) :
  (forall s, R s s) ->
  (forall s1 s2 s3, R s1 s2 -> R s2 s3 -> R s1 s3) ->
  (forall info s,
     R s (snd (cli_process K (storage_env o) (load_latest_backup o) (session o)
                 (clock o) (Args.force_backup args) (Args.test_run args)
                 info s))) ->
  R w (snd (run_backup K o args w)).
Proof.
  intros Rr Rt Rf. unfold run_backup, mbind.
  destruct (create_tables o) as [[]|e]; [|apply Rr].
  destruct (read_info_list_file (inventory o)) as [|i0 infos]; [apply Rr|].
  destruct (sorted _) as [|r0 req]; [apply Rr|].
  match goal with
  | |- context [execute_data_processing_function ?f ?m ?l w] =>
      pose proof (execute_keeps f R Rr Rt Rf m l w) as H;
      destruct (execute_data_processing_function f m l w) as [[names|e] w1]
  end; exact H.
Qed.

(** X17: a test run of the backup program leaves the storage exactly as it
    was: in either mode, whatever the devices answer and however the run
    ends, [put_item] is never called and nothing is slept. *)
Theorem main_test_run_writes_nothing (K : blob_codec) (o : surroundings)
    (args : Args.t) (w : storage) :
  Args.test_run args = true -> snd (main K o args w) = w.
Proof.
  intros T. unfold main, exception_handler, mbind.
  assert (H : snd (run_backup K o args w) = w).
  { symmetry. apply (run_backup_keeps K o args eq); try congruence.
    intros info s. rewrite T. symmetry. apply cli_process_test_run. }
  destruct (run_backup K o args w) as [[[infos [[req succ] failed]]|e] w1];
    cbn [snd] in H; subst w1.
  - rewrite T. reflexivity.
  - destruct e; reflexivity.
Qed.

Lemma main_test_run_writes_nothing_witness :
  snd (main hex_codec
         (sample_surroundings (FileHolds [sample_device; second_device]))
         (select_all true true) fresh_storage) = fresh_storage.
Proof.
  exact (main_test_run_writes_nothing hex_codec
           (sample_surroundings (FileHolds [sample_device; second_device]))
           (select_all true true) fresh_storage eq_refl).
Defined.







(** ** The change detector and the saved backup *)

Lemma detect_in_formats_false (prev cur : dict (dict str)) :
  (forall fk fmt ck out,
     dict_get cur fk = Some fmt -> dict_get fmt ck = Some out ->
     compare_command_outputs out (previous_output prev fk ck) = true) ->
  detect_in_formats prev cur = false.
Proof.
  intros H. destruct (detect_in_formats prev cur) eqn:D; [|reflexivity].
  apply detect_in_formats_spec in D.
  destruct D as (fk & fmt & ck & out & G & Gc & C).
  rewrite (H _ _ _ _ G Gc) in C. discriminate.
Qed.

(** X19: a device that has not changed is not saved again: when the latest
    stored backup is the backup document of this very snapshot, and that
    document holds at least one format, [detect_config_change] reports no
    change. *)
Theorem detect_unchanged_snapshot (load : str -> option device_data)
    (d stored : device_data) (name : str) (timestamp : Z) :
  device_name d = Some name ->
  document_for d timestamp DBT_BACKUP = Some stored ->
  get_output_formats stored <> [] ->
  load name = Some stored ->
  detect_config_change load d = Some false.
Proof.
  intros Hn Hd Hs Hl.
  destruct (output_formats d) as [fs|] eqn:Hf.
  2:{ unfold document_for in Hd. rewrite Hn, Hf in Hd.
      destruct (device_type d); discriminate. }
  assert (St : is_empty stored = false /\
               get_output_formats stored
               = filter (fun kv => startswith (fst kv) (lit "backup")) fs).
  { unfold document_for in Hd. rewrite Hn, Hf in Hd.
    destruct (device_type d) as [type|]; [|discriminate].
    cbn [bind] in Hd. injection Hd as <-. split; reflexivity. }
  destruct St as [Ee Ef].
  unfold detect_config_change. rewrite Hn. cbn [bind].
  rewrite Hl. cbn [bind]. rewrite Ee, Ef. rewrite Ef in Hs.
  destruct (filter (fun kv => startswith (fst kv) (lit "backup")) fs)
    as [|p prev] eqn:P; [congruence|].
  rewrite Hf. cbn [bind]. f_equal. rewrite P. apply detect_in_formats_false.
  intros fk fmt ck out G Gc. unfold previous_output, dict_get_default.
  rewrite G, Gc. unfold compare_command_outputs. cbv zeta.
  rewrite Nat.eqb_refl. cbn [negb]. apply compare_lines_diag.
Qed.

Lemma detect_unchanged_snapshot_witness :
  detect_config_change
    (fun _ => document_for sample_snapshot 1600000000 DBT_BACKUP)
    sample_snapshot = Some false.
Proof.
  eapply (detect_unchanged_snapshot _ sample_snapshot _ (lit "rtr1") 1600000000).
  - reflexivity.
  - reflexivity.
  - discriminate.
  - reflexivity.
Defined.

(** X20: [detect_config_change] never looks at a stored format or command
    that the current snapshot does not have: two stored backups that hold
    some format each and give the same previous output for every command
    of the current backup formats lead to the same answer, so a command
    that was dropped from the catalog is never reported as a change. *)
Theorem detect_ignores_removed_commands
    (load1 load2 : str -> option device_data)
    (d stored1 stored2 : device_data) (name : str)
    (formats : dict (dict str)) :
  device_name d = Some name ->
  output_formats d = Some formats ->
  load1 name = Some stored1 -> load2 name = Some stored2 ->
  get_output_formats stored1 <> [] -> get_output_formats stored2 <> [] ->
  (forall format_key format command output,
     startswith format_key (lit "backup") = true ->
     dict_get formats format_key = Some format ->
     dict_get format command = Some output ->
     previous_output (get_output_formats stored1) format_key command
     = previous_output (get_output_formats stored2) format_key command) ->
  detect_config_change load1 d = detect_config_change load2 d.
Proof.
  intros Hn Hf H1 H2 N1 N2 Same. unfold detect_config_change.
  rewrite Hn. cbn [bind]. rewrite H1, H2. cbn [bind].
  assert (E : forall s, get_output_formats (if is_empty s then empty_data else s)
                        = get_output_formats s).
  { intros [[?|] [?|] [?|] [?|]]; reflexivity. }
  rewrite !E.
  destruct (get_output_formats stored1) as [|p1 r1] eqn:P1; [congruence|].
  destruct (get_output_formats stored2) as [|p2 r2] eqn:P2; [congruence|].
  rewrite Hf. cbn [bind]. f_equal.
  assert (Same' : forall fk fmt ck out,
             dict_get (filter (fun kv => startswith (fst kv) (lit "backup"))
                         formats) fk = Some fmt ->
             dict_get fmt ck = Some out ->
             previous_output (p1 :: r1) fk ck = previous_output (p2 :: r2) fk ck).
  { intros fk fmt ck out G Gc.
    pose proof (dict_get_filter (fun k => startswith k (lit "backup"))
                  formats fk) as F.
    cbv beta in F. rewrite F in G.
    destruct (startswith fk (lit "backup")) eqn:S; [|discriminate].
    eapply Same; eassumption. }
  destruct (detect_in_formats (p1 :: r1) _) eqn:D1;
    destruct (detect_in_formats (p2 :: r2) _) eqn:D2; try reflexivity.
  - apply detect_in_formats_spec in D1.
    destruct D1 as (fk & fmt & ck & out & G & Gc & C).
    assert (T : detect_in_formats (p2 :: r2)
                  (filter (fun kv => startswith (fst kv) (lit "backup")) formats)
                = true).
    { apply detect_in_formats_spec. exists fk, fmt, ck, out.
      rewrite <- (Same' _ _ _ _ G Gc). auto. }
    congruence.
  - apply detect_in_formats_spec in D2.
    destruct D2 as (fk & fmt & ck & out & G & Gc & C).
    assert (T : detect_in_formats (p1 :: r1)
                  (filter (fun kv => startswith (fst kv) (lit "backup")) formats)
                = true).
    { apply detect_in_formats_spec. exists fk, fmt, ck, out.
      rewrite (Same' _ _ _ _ G Gc). auto. }
    congruence.
Qed.

Lemma detect_ignores_removed_commands_witness :
  detect_config_change (fun _ => Some (stored_backup (lit "11:00")))
                       (snapshot_at (lit "12:00"))
  = detect_config_change (fun _ => Some (stored_backup_with_more (lit "11:00")))
                         (snapshot_at (lit "12:00")).
Proof.
  apply (detect_ignores_removed_commands
           (fun _ => Some (stored_backup (lit "11:00")))
           (fun _ => Some (stored_backup_with_more (lit "11:00")))
           (snapshot_at (lit "12:00"))
           (stored_backup (lit "11:00"))
           (stored_backup_with_more (lit "11:00"))
           (lit "rtr1")
           (get_output_formats (snapshot_at (lit "12:00"))));
    try reflexivity; try discriminate.
  intros fk fmt ck out S G Gc.
  cbn [get_output_formats snapshot_at output_formats dict_get] in G.
  destruct (str_eqb (lit "backup_running") fk) eqn:E1.
  - apply str_eqb_eq in E1. subst fk. injection G as <-.
    cbn [dict_get] in Gc.
    destruct (str_eqb (lit "show running-config") ck) eqn:E2; [|discriminate].
    apply str_eqb_eq in E2. subst ck. reflexivity.
  - destruct (str_eqb (lit "info") fk) eqn:E3; [|discriminate].
    apply str_eqb_eq in E3. subst fk. discriminate S.
Defined.

(** ** The compressed document *)

Lemma dict_set_In {V} (d : dict V) (k a : str) (v b : V) :
  In (a, b) (dict_set d k v) -> In (a, b) d \/ (a = k /\ b = v).
Proof.
  induction d as [|[k' v'] r IH]; cbn [dict_set In].
  - intros [[= <- <-]|[]]. now right.
  - destruct (str_eqb k' k) eqn:E; cbn [In].
    + apply str_eqb_eq in E. subst k'. intros [[= <- <-]|I]; [now right|auto].
    + intros [I|I]; [auto|]. destruct (IH I); auto.
Qed.

Lemma dict_rebuild_bindings {V W} (f : str -> option str) (g : V -> option W)
    (d : dict V) (d' : dict W) :
  dict_rebuild f g d = Some d' ->
  forall k' v', In (k', v') d' ->
    exists k v, In (k, v) d /\ f k = Some k' /\ g v = Some v'.
Proof.
  unfold dict_rebuild.
  assert (G : forall acc,
             (forall k' v', In (k', v') acc ->
                exists k v, In (k, v) d /\ f k = Some k' /\ g v = Some v') ->
             forall rest, (forall kv, In kv rest -> In kv d) ->
             fold_left (rebuild_step f g) rest (Some acc) = Some d' ->
             forall k' v', In (k', v') d' ->
               exists k v, In (k, v) d /\ f k = Some k' /\ g v = Some v').
  { intros acc Ha rest. revert acc Ha.
    induction rest as [|[k v] r IH]; intros acc Ha Sub; cbn [fold_left].
    - intros [= <-]. exact Ha.
    - unfold rebuild_step at 2. cbn [bind fst snd].
      destruct (g v) as [v1|] eqn:Gv.
      2:{ cbn [bind]. intros H. exfalso. clear - H.
          induction r as [|x r IH]; [discriminate|exact (IH H)]. }
      destruct (f k) as [k1|] eqn:Fk.
      2:{ cbn [bind]. intros H. exfalso. clear - H.
          induction r as [|x r IH]; [discriminate|exact (IH H)]. }
      cbn [bind]. apply IH.
      + intros k' v' I. apply dict_set_In in I.
        destruct I as [I|[-> ->]]; [now apply Ha|].
        exists k, v. split; [apply Sub; now left|auto].
      + intros kv I. apply Sub. now right. }
  apply (G []); [intros k' v' []|auto].
Qed.

Lemma encode_command_letters (k e : str) :
  encode_command k = Some e -> Forall a_to_p e.
Proof.
  unfold encode_command. destruct (utf8_encode k) as [b|] eqn:U; [|discriminate].
  cbn [bind].
  destruct (utf8_roundtrip k (utf8_encode_some k b U)) as (b' & U' & B & _).
  assert (b' = b) by congruence. subst b'.
  pose proof (hexlify_lower b B) as L.
  rewrite utf8_decode_ascii
    by (eapply Forall_impl; [|exact L]; unfold hex_lower, is_ascii; lia).
  cbn [bind]. intros [= <-]. apply (translate_hex (hexlify b) L).
Qed.

Lemma compress_output_ascii (K : blob_codec) (v c : str) :
  blob_codec_ok K -> compress_output K v = Some c -> Forall is_ascii c.
Proof.
  intros K_ok. unfold compress_output.
  destruct (utf8_encode v) as [b|] eqn:U; [|discriminate]. cbn [bind].
  destruct (utf8_roundtrip v (utf8_encode_some v b U)) as (b' & U' & B & _).
  assert (b' = b) by congruence. subst b'.
  pose proof (b85_ascii K K_ok _ (bz2_bytes K K_ok b B)) as A.
  rewrite (utf8_decode_ascii _ A). intros [= <-]. exact A.
Qed.

(** X21: what [compress_device_data] returns is safe to store: in every
    format of the compressed document every key consists of the letters
    [a]..[p] and every value is ASCII text, whatever the command names and
    outputs of the snapshot were. *)
Theorem compressed_document_is_text (K : blob_codec) (d c : device_data) :
  blob_codec_ok K ->
  compress_device_data K d = Some c ->
  forall format_name format key value,
    In (format_name, format) (get_output_formats c) ->
    In (key, value) format ->
    Forall a_to_p key /\ Forall is_ascii value.
Proof.
  intros K_ok. unfold compress_device_data.
  destruct (is_empty d); [intros [= <-] fn fmt k v []|].
  destruct (dict_rebuild Some _ (get_output_formats d)) as [fs|] eqn:R;
    [|discriminate].
  cbn [bind]. intros [= <-] fn fmt k v If Ik.
  cbn [get_output_formats output_formats] in If.
  destruct (dict_rebuild_bindings _ _ _ _ R _ _ If) as (fn0 & fmt0 & _ & _ & Rf).
  destruct (dict_rebuild_bindings _ _ _ _ Rf _ _ Ik) as (k0 & v0 & _ & Ek & Ev).
  split; [eapply encode_command_letters, Ek|].
  eapply compress_output_ascii; eassumption.
Qed.

Lemma compressed_document_is_text_witness :
  exists c,
    compress_device_data hex_codec sample_snapshot = Some c /\
    forall format_name format key value,
      In (format_name, format) (get_output_formats c) ->
      In (key, value) format ->
      Forall a_to_p key /\ Forall is_ascii value.
Proof.
  eexists. split; [reflexivity|].
  apply (compressed_document_is_text hex_codec sample_snapshot _ hex_codec_ok).
  reflexivity.
Defined.

(** ** Keys are canonical *)

Ltac tests_to_props :=
  repeat match goal with
  | H : _ && _ = true |- _ => apply andb_true_iff in H; destruct H
  | H : negb _ = true |- _ => apply negb_true_iff in H
  | H : _ && _ = false |- _ => apply andb_false_iff in H
  | H : (_ <=? _) = true |- _ => apply Z.leb_le in H
  | H : (_ <? _) = true |- _ => apply Z.ltb_lt in H
  | H : (_ <=? _) = false |- _ => apply Z.leb_gt in H
  | H : (_ <? _) = false |- _ => apply Z.ltb_ge in H
  end.

(** The strict decoder accepts the shortest form only: what it decodes is
    encoded to the same bytes. *)
Lemma utf8_decode_encode_upto (n : nat) :
  forall b s, (List.length b <= n)%nat ->
              utf8_decode b = Some s -> utf8_encode s = Some b.
Proof.
  induction n as [|n IH]; intros b s L.
  - destruct b; [|cbn in L; lia]. intros [= <-]. reflexivity.
  - destruct b as [|b0 r0]; [intros [= <-]; reflexivity|].
    cbn [utf8_decode]. cbn [List.length] in L.
    destruct ((0 <=? b0) && (b0 <? 128)) eqn:T1.
    { destruct (utf8_decode r0) as [s'|] eqn:D; [|discriminate].
      cbn [bind]. intros [= <-]. tests_to_props.
      cbn [utf8_encode]. unfold utf8_encode_char. decide_tests.
      cbn [bind]. rewrite (IH r0 s') by (auto; lia). reflexivity. }
    destruct ((194 <=? b0) && (b0 <=? 223)) eqn:T2.
    { destruct r0 as [|b1 r1]; [discriminate|]. unfold is_cont.
      destruct ((128 <=? b1) && (b1 <=? 191)) eqn:C1; [|discriminate].
      destruct (utf8_decode r1) as [s'|] eqn:D; [|discriminate].
      cbn [bind]. intros [= <-]. clear T1. tests_to_props.
      cbn [utf8_encode]. unfold utf8_encode_char. decide_tests.
      cbn [bind List.length] in *. rewrite (IH r1 s') by (auto; lia).
      cbn [bind app]. do 2 f_equal; [zlia|f_equal; zlia]. }
    destruct ((224 <=? b0) && (b0 <=? 239)) eqn:T3.
    { destruct r0 as [|b1 [|b2 r2]]; try discriminate. cbv zeta.
      unfold is_cont, is_surrogate.
      destruct ((128 <=? b1) && (b1 <=? 191)) eqn:C1; [|discriminate].
      destruct ((128 <=? b2) && (b2 <=? 191)) eqn:C2; [|discriminate].
      cbn [andb].
      destruct (2048 <=? (b0 - 224) * 4096 + (b1 - 128) * 64 + (b2 - 128))
        eqn:Lo; [|discriminate].
      cbn [andb].
      destruct ((55296 <=? (b0 - 224) * 4096 + (b1 - 128) * 64 + (b2 - 128))
                && ((b0 - 224) * 4096 + (b1 - 128) * 64 + (b2 - 128) <=? 57343))
        eqn:Su; [discriminate|].
      cbn [negb].
      destruct (utf8_decode r2) as [s'|] eqn:D; [|discriminate].
      cbn [bind]. intros [= <-]. clear T1 T2.
      cbn [utf8_encode]. unfold utf8_encode_char, is_surrogate.
      rewrite Su. clear Su. tests_to_props. decide_tests.
      cbn [bind List.length] in *. rewrite (IH r2 s') by (auto; lia).
      cbn [bind app]. do 2 f_equal; [zlia|f_equal; [zlia|f_equal; zlia]]. }
    destruct ((240 <=? b0) && (b0 <=? 244)) eqn:T4; [|discriminate].
    destruct r0 as [|b1 [|b2 [|b3 r3]]]; try discriminate. cbv zeta.
    unfold is_cont.
    destruct ((128 <=? b1) && (b1 <=? 191)) eqn:C1; [|discriminate].
    destruct ((128 <=? b2) && (b2 <=? 191)) eqn:C2; [|discriminate].
    destruct ((128 <=? b3) && (b3 <=? 191)) eqn:C3; [|discriminate].
    cbn [andb].
    destruct (65536 <=? (b0 - 240) * 262144 + (b1 - 128) * 4096
                        + (b2 - 128) * 64 + (b3 - 128)) eqn:Lo; [|discriminate].
    cbn [andb].
    destruct ((b0 - 240) * 262144 + (b1 - 128) * 4096
              + (b2 - 128) * 64 + (b3 - 128) <? 1114112) eqn:Hi; [|discriminate].
    destruct (utf8_decode r3) as [s'|] eqn:D; [|discriminate].
    cbn [bind]. intros [= <-]. clear T1 T2 T3. tests_to_props.
    cbn [utf8_encode]. unfold utf8_encode_char. decide_tests.
    cbn [bind List.length] in *. rewrite (IH r3 s') by (auto; lia).
    cbn [bind app].
    do 2 f_equal; [zlia|f_equal; [zlia|f_equal; [zlia|f_equal; zlia]]].
Qed.

Lemma utf8_decode_encode (b : bytes) (s : str) :
  utf8_decode b = Some s -> utf8_encode s = Some b.
Proof. apply (utf8_decode_encode_upto (List.length b)). lia. Qed.

Lemma hex_digit_value (c v : Z) :
  hex_lower c -> hex_value c = Some v -> 0 <= v < 16 /\ hex_digit v = c.
Proof.
  intros H. apply hex_lower_cases in H. cbn [In] in H.
  repeat (destruct H as [<-|H];
          [cbn; intros [= <-]; split; [lia|reflexivity]|]).
  destruct H.
Qed.

Lemma hexlify_unhexlify (h : str) (b : bytes) :
  Forall hex_lower h -> unhexlify h = Some b -> hexlify b = h.
Proof.
  assert (G : forall n h b, (List.length h <= n)%nat ->
              Forall hex_lower h -> unhexlify h = Some b -> hexlify b = h).
  { clear. induction n as [|n IH]; intros h b L F.
    - destruct h; [|cbn in L; lia]. intros [= <-]. reflexivity.
    - destruct h as [|c1 [|c2 r]]; [intros [= <-]; reflexivity|discriminate|].
      cbn [unhexlify]. inversion F as [|? ? F1 F']; subst.
      inversion F' as [|? ? F2 Fr]; subst.
      destruct (hex_value c1) as [v1|] eqn:V1; [|discriminate].
      destruct (hex_value c2) as [v2|] eqn:V2; [|discriminate].
      destruct (unhexlify r) as [br|] eqn:U; [|discriminate].
      cbn [bind]. intros [= <-].
      destruct (hex_digit_value c1 v1 F1 V1) as [R1 D1].
      destruct (hex_digit_value c2 v2 F2 V2) as [R2 D2].
      cbn [hexlify]. cbn [List.length] in L.
      rewrite (IH r br) by (auto; lia).
      replace ((v1 * 16 + v2) / 16) with v1 by zlia.
      replace ((v1 * 16 + v2) mod 16) with v2 by zlia.
      now rewrite D1, D2. }
  apply (G (List.length h)). lia.
Qed.

Lemma a_to_p_cases (c : Z) :
  a_to_p c ->
  In c [97; 98; 99; 100; 101; 102; 103; 104; 105; 106; 107; 108; 109; 110;
        111; 112].
Proof.
  unfold a_to_p. intros H. cbn [In].
  assert (c = 97 \/ c = 98 \/ c = 99 \/ c = 100 \/ c = 101 \/ c = 102
          \/ c = 103 \/ c = 104 \/ c = 105 \/ c = 106 \/ c = 107 \/ c = 108
          \/ c = 109 \/ c = 110 \/ c = 111 \/ c = 112) by lia.
  intuition auto.
Qed.

Lemma translate_letters (e : str) :
  Forall a_to_p e ->
  let h := translate (maketrans (lit "ghijklmnop") (lit "1234567890")) e in
  Forall hex_lower h /\
  translate (maketrans (lit "1234567890") (lit "ghijklmnop")) h = e.
Proof.
  induction 1 as [|c r Hc Hr IH]; cbn zeta; [split; [constructor|reflexivity]|].
  cbn zeta in IH. destruct IH as [IHa IHe].
  unfold translate in *. cbn [map]. rewrite IHe.
  apply a_to_p_cases in Hc. cbn [In] in Hc.
  repeat (destruct Hc as [<-|Hc];
          [split; [constructor; [vm_compute; intuition discriminate|exact IHa]
                  |reflexivity]|]).
  destruct Hc.
Qed.

(** X22: on keys made of the letters [a]..[p] the two codec functions are
    inverse in the other direction too: a key that [decode_command] accepts
    is the key that [encode_command] gives to the decoded name, so no two
    such keys stand for the same command. *)
Theorem encode_decode_command (e s : str) :
  Forall a_to_p e -> decode_command e = Some s -> encode_command s = Some e.
Proof.
  intros A. unfold decode_command, encode_command.
  destruct (translate_letters e A) as [L T].
  destruct (unhexlify _) as [b|] eqn:U; [|discriminate]. cbn [bind].
  intros D. rewrite (utf8_decode_encode b s D). cbn [bind].
  rewrite (hexlify_unhexlify _ b L U).
  rewrite utf8_decode_ascii
    by (eapply Forall_impl; [|exact L]; unfold hex_lower, is_ascii; lia).
  cbn [bind]. now rewrite T.
Qed.

Lemma encode_decode_command_witness :
  encode_command (lit "show run") = Some (lit "milnlfmmhpmhmkle").
Proof.
  apply (encode_decode_command (lit "milnlfmmhpmhmkle") (lit "show run")).
  - repeat (apply Forall_cons; [unfold a_to_p; cbn; lia|]). apply Forall_nil.
  - reflexivity.
Defined.

(** ** The attribute format *)

Lemma json_induction (P : json -> Prop)
    (Hdict : forall d, Forall (fun kv => P (snd kv)) d -> P (JDict d))
    (Hlist : forall l, Forall P l -> P (JList l))
    (Hstr : forall s, P (JStr s))
    (Hint : forall n, P (JInt n))
    (Hbytes : forall b, P (JBytes b))
    (Hbool : forall b, P (JBool b))
    (Hnone : P JNone)
    (Hother : P JOther) :
  forall v, P v.
Proof.
  fix IH 1. intros [d|l|s|n|b|b| |].
  - apply Hdict. induction d as [|[k x] r IHr]; constructor;
      [exact (IH x)|exact IHr].
  - apply Hlist. induction l as [|x r IHr]; constructor;
      [exact (IH x)|exact IHr].
  - apply Hstr.
  - apply Hint.
  - apply Hbytes.
  - apply Hbool.
  - apply Hnone.
  - apply Hother.
Qed.

Section LoopsInverse.
Context {A B : Type}.
Variable f : A -> option B.
Variable g : B -> option A.

Lemma append_known_traverse (l : list A) :
  Forall (there_and_back f g) l ->
  traverse g (append_known f l) = Some l.
Proof.
  induction 1 as [|x r (y & Hf & Hg) Hr IH]; [reflexivity|].
  cbn [append_known]. rewrite Hf. cbn [traverse]. rewrite Hg, IH. reflexivity.
Qed.

Lemma bind_known_fold (d : dict A) :
  Forall (fun kv => there_and_back f g (snd kv)) d ->
  forall acc : dict B, NoDup (keys acc ++ keys d) ->
  exists d',
    fold_left (fun (acc : dict B) (kv : str * A) =>
                 match f (snd kv) with
                 | Some y => dict_set acc (fst kv) y
                 | None => acc
                 end) d acc = acc ++ d'
    /\ Forall2 (carried Some g) d' d.
Proof.
  induction 1 as [|[k x] r (y & Hf & Hg) Hr IH]; intros acc N.
  - exists []. split; [now rewrite app_nil_r|constructor].
  - cbn [fold_left fst snd] in *. rewrite Hf.
    assert (Fr : ~ In k (keys acc)).
    { cbn [keys map fst] in N.
      apply NoDup_remove_2 in N. intros I. apply N. apply in_or_app. now left. }
    rewrite (dict_set_fresh acc k y Fr).
    destruct (IH (acc ++ [(k, y)])) as (d' & E & C).
    { unfold keys in *. rewrite map_app. cbn [map fst] in *.
      rewrite <- app_assoc. exact N. }
    exists ((k, y) :: d'). split.
    + rewrite E, <- app_assoc. reflexivity.
    + constructor; [split; [reflexivity|exact Hg]|exact C].
Qed.

Lemma bind_known_rebuild (d : dict A) :
  Forall (fun kv => there_and_back f g (snd kv)) d ->
  NoDup (keys d) ->
  dict_rebuild Some g (bind_known f d) = Some d.
Proof.
  intros T N. destruct (bind_known_fold d T [] N) as (d' & E & C).
  unfold bind_known. rewrite E. cbn [app]. unfold dict_rebuild.
  apply (rebuild_fold Some g d' d [] C). exact N.
Qed.

(** What has no branch leaves no trace. *)
Lemma append_known_filter (p : A -> bool) (l : list A) :
  (forall x, p x = false -> f x = None) ->
  append_known f (filter p l) = append_known f l.
Proof.
  intros H. induction l as [|x r IH]; [reflexivity|].
  cbn [filter append_known]. destruct (p x) eqn:E.
  - cbn [append_known]. now rewrite IH.
  - now rewrite (H x E).
Qed.

Lemma bind_known_filter (p : A -> bool) (d : dict A) :
  (forall x, p x = false -> f x = None) ->
  bind_known f (filter (fun kv => p (snd kv)) d) = bind_known f d.
Proof.
  intros H. unfold bind_known. generalize (@nil (str * B)).
  induction d as [|[k x] r IH]; intros acc; [reflexivity|].
  cbn [filter fold_left fst snd]. destruct (p x) eqn:E.
  - cbn [fold_left fst snd]. apply IH.
  - rewrite (H x E). apply IH.
Qed.
End LoopsInverse.

Lemma unfold_fold_item (F : number_format) :
  number_format_ok F ->
  forall v, storable v = true ->
            there_and_back (unfold_item F) (fold_item F) v.
Proof.
  intros OK. unfold there_and_back.
  induction v as [d IH|l IH|s|n|b|b| |] using json_induction;
    cbn [storable unfold_item]; intros W.
  - apply andb_true_iff in W. destruct W as [N W].
    apply nodupb_NoDup in N. rewrite forallb_forall in W.
    eexists. split; [reflexivity|]. cbn [fold_item].
    rewrite (bind_known_rebuild (unfold_item F) (fold_item F) d); [reflexivity| |exact N].
    rewrite Forall_forall in *. intros kv I. apply (IH kv I). now apply W.
  - rewrite forallb_forall in W.
    eexists. split; [reflexivity|]. cbn [fold_item].
    rewrite (append_known_traverse (unfold_item F) (fold_item F) l); [reflexivity|].
    rewrite Forall_forall in *. intros x I. apply (IH x I). now apply W.
  - eexists. split; reflexivity.
  - eexists. split; [reflexivity|]. cbn [fold_item]. now rewrite OK.
  - eexists. split; reflexivity.
  - eexists. split; reflexivity.
  - eexists. split; reflexivity.
  - discriminate.
Qed.

Lemma digits_of_uint (u : Decimal.uint) : uint_of (digits_of u) = Some u.
Proof.
  induction u as [|u IH|u IH|u IH|u IH|u IH|u IH|u IH|u IH|u IH|u IH];
    cbn [digits_of uint_of]; [reflexivity|..]; rewrite IH; reflexivity.
Qed.

Lemma digits_of_nonempty (u : Decimal.uint) :
  u <> Decimal.Nil -> exists c r, digits_of u = c :: r /\ 48 <= c <= 57.
Proof.
  destruct u; [congruence|..]; intros _; cbn [digits_of];
    eexists; eexists; (split; [reflexivity|lia]).
Qed.

Lemma decimal_ok : number_format_ok decimal.
Proof.
  intros n. rewrite <- (DecimalZ.of_to n) at 2.
  unfold decimal. cbn [str_of_int int_of_str].
  assert (NN : forall u, Z.to_int n = Decimal.Pos u \/ Z.to_int n = Decimal.Neg u ->
                         u <> Decimal.Nil).
  { intros u. destruct n as [|p|p]; cbn [Z.to_int].
    - intros [[= <-]|E]; discriminate.
    - intros [[= <-]|E]; [apply DecimalPos.Unsigned.to_uint_nonnil|discriminate].
    - intros [E|[= <-]]; [discriminate|apply DecimalPos.Unsigned.to_uint_nonnil]. }
  destruct (Z.to_int n) as [u|u] eqn:E.
  - destruct (digits_of_nonempty u (NN u (or_introl eq_refl))) as (c & r & D & R).
    rewrite D. destruct (c =? 45) eqn:E1; [lia|]. destruct (c =? 43) eqn:E2; [lia|].
    rewrite <- D, digits_of_uint. reflexivity.
  - cbn [Z.eqb Pos.eqb].
    destruct (digits_of_nonempty u (NN u (or_intror eq_refl))) as (c & r & D & R).
    rewrite D. rewrite <- D, digits_of_uint. reflexivity.
Qed.

(** X23: a document without values of other types that [_unfold] puts
    into the attribute format is given back unchanged by [_fold]:
    dictionaries and lists at every depth, strings, integers through
    their decimal notation, bytes, booleans and [None]. *)
Theorem fold_unfold (F : number_format) (document : json) (z : structure) :
  number_format_ok F ->
  storable document = true ->
  _unfold F document = Some z ->
  _fold F z = Some document.
Proof.
  intros OK W. destruct document as [d|l|s|n|b|b| |]; try discriminate.
  - intros [= <-]. cbn [storable] in W.
    apply andb_true_iff in W. destruct W as [N W].
    apply nodupb_NoDup in N. rewrite forallb_forall in W. cbn [_fold].
    rewrite (bind_known_rebuild (unfold_item F) (fold_item F) d); [reflexivity| |exact N].
    rewrite Forall_forall. intros kv I. apply unfold_fold_item; [exact OK|now apply W].
  - intros [= <-]. cbn [storable] in W. rewrite forallb_forall in W. cbn [_fold].
    rewrite (append_known_traverse (unfold_item F) (fold_item F) l); [reflexivity|].
    rewrite Forall_forall. intros x I. apply unfold_fold_item; [exact OK|now apply W].
Qed.

Lemma fold_unfold_witness :
  exists z, _unfold decimal sample_status_document = Some z
            /\ _fold decimal z = Some sample_status_document.
Proof.
  eexists. split; [reflexivity|].
  apply (fold_unfold decimal sample_status_document);
    [exact decimal_ok|reflexivity|reflexivity].
Defined.

(** X24: [_unfold] passes over every member of a type it has no branch
    for, a float for one, without an error: a dictionary or a list is put
    into the attribute format as the same one without those members, so
    they are not stored. *)
Theorem unfold_drops_other_types (F : number_format) :
  (forall fields,
      _unfold F (JDict fields)
      = _unfold F (JDict (filter (fun kv => known (snd kv)) fields))) /\
  (forall elements,
      _unfold F (JList elements) = _unfold F (JList (filter known elements))).
Proof.
  assert (H : forall x, known x = false -> unfold_item F x = None)
    by (intros [ ]; (discriminate || reflexivity)).
  split; intros; cbn [_unfold].
  - now rewrite (bind_known_filter (unfold_item F) known fields H).
  - now rewrite (append_known_filter (unfold_item F) known elements H).
Qed.

(** ** Reading the snapshot *)

Lemma sent_of_ret {A} (x : A) (c : console) : sent_of [] c (ret x c).
Proof.
  exists [], []. cbn. rewrite app_nil_r. repeat split.
Qed.

Lemma sent_of_bind {A B} (m : M console A) (k : A -> M console B)
    (l1 l2 : list str) (c : console) :
  sent_of l1 c (m c) ->
  (forall a c1, sent_of l2 c1 (k a c1)) ->
  sent_of (l1 ++ l2) c (mbind m k c).
Proof.
  intros (d1 & r1 & E1 & A1 & O1) H2. unfold mbind.
  destruct (m c) as [[a|e] c1]; cbn [fst snd] in *.
  - subst r1. rewrite app_nil_r in E1. subst d1.
    destruct (H2 a c1) as (d2 & r2 & E2 & A2 & O2).
    exists (l1 ++ d2), r2. repeat split.
    + rewrite E2. now rewrite app_assoc.
    + rewrite A2, A1, map_app. now rewrite app_assoc.
    + exact O2.
  - exists d1, (r1 ++ l2). repeat split.
    + rewrite E1. now rewrite app_assoc.
    + exact A1.
    + exact O1.
Qed.

Lemma send_command_sent (self : Cli.t) (command : str)
    (alternate_expect_string : option str) (c : console) :
  sent_of [command] c
    (NetCatCliAccess.send_command self command alternate_expect_string c).
Proof.
  destruct c as [[scr acts] pr].
  assert (G : forall patterns,
    sent_of [command] {| term := {| script := scr; actions := acts |};
                         printed := pr |}
      (mbind (on_terminal
                (cli_exception_handler
                   (mbind (act (SendLine command))
                      (fun _ => mbind (expect patterns) (fun _ => ret tt)))))
             (fun _ => before)
             {| term := {| script := scr; actions := acts |}; printed := pr |})).
  { intros patterns.
    unfold mbind, on_terminal, cli_exception_handler, act, expect, ret, before.
    cbn [term printed script actions].
    destruct scr as [|[i| |[line|]] r]; cbn [script actions term printed].
    - exists [command], []. cbn. repeat split. left. eauto.
    - destruct pr as [|text pr']; exists [command], []; cbn; repeat split.
    - exists [command], []. cbn. repeat split. left. eauto.
    - repeat match goal with
             | |- context [find ?a ?b >=? 0] => destruct (find a b >=? 0)
             end;
        exists [command], []; cbn; repeat split; left; eauto.
    - exists [command], []. cbn. repeat split. now right. }
  unfold NetCatCliAccess.send_command.
  destruct alternate_expect_string as [[|x s]|]; apply G.
Qed.

Lemma send_each_sent (self : Cli.t) (commands : list str) (c : console) :
  sent_of commands c (NetCatCliAccess.send_each self commands c).
Proof.
  revert c. induction commands as [|command r IH]; intros c;
    cbn [NetCatCliAccess.send_each].
  - apply sent_of_ret.
  - apply (sent_of_bind _ _ [command] r); [apply send_command_sent|].
    intros _ c1. apply IH.
Qed.

Lemma read_each_sent (self : Cli.t) (output_format : Format.t)
    (commands : list str) (section : dict str) (c : console) :
  sent_of commands c
    (NetCatCliAccess.read_each self output_format commands section c).
Proof.
  revert section c. induction commands as [|command r IH]; intros section c;
    cbn [NetCatCliAccess.read_each].
  - apply sent_of_ret.
  - apply (sent_of_bind _ _ [command] r); [apply send_command_sent|].
    intros output c1. apply IH.
Qed.

Lemma read_formats_sent (self : Cli.t) (output_formats : list Format.t)
    (formats : dict (dict str)) (c : console) :
  sent_of (catalog_lines output_formats) c
    (NetCatCliAccess.read_formats self output_formats formats c).
Proof.
  revert formats c.
  induction output_formats as [|output_format r IH]; intros formats c;
    cbn [NetCatCliAccess.read_formats catalog_lines flat_map].
  - apply sent_of_ret.
  - rewrite <- !app_assoc.
    apply sent_of_bind; [apply send_each_sent|]. intros _ c1.
    apply sent_of_bind; [apply read_each_sent|]. intros section c2.
    cbv zeta.
    apply sent_of_bind; [apply send_each_sent|]. intros _ c3.
    apply IH.
Qed.

(** X25: whatever the device answers, [get_device_data] of the session
    sends the lines of its catalog and nothing else, in the order of the
    catalog (for each format the pre-commands, the commands, the
    post-commands): what it has sent is a first part of them, all of them
    when it returns the snapshot; when it raises, the exception is the
    [CustomException] (or the [IndexError]) of the decorator, never one
    of pexpect. *)
Theorem get_device_data_sends_catalog (self : Cli.t) (self_timestamp : Z)
    (self_type : str) (self_output_formats : list Format.t) (c : console) :
  exists done rest,
    catalog_lines self_output_formats = done ++ rest
    /\ actions (term (snd (NetCatCliAccess.get_device_data
                             self self_timestamp self_type
                             self_output_formats c)))
       = actions (term c) ++ map SendLine done
    /\ match fst (NetCatCliAccess.get_device_data
                    self self_timestamp self_type self_output_formats c) with
       | Ok _ => rest = []
       | Raise e => from_decorator e
       end.
Proof.
  pose proof (sent_of_bind
                (NetCatCliAccess.read_formats self self_output_formats [])
                (fun formats =>
                   ret {| snapshot_timestamp := Some self_timestamp;
                          device_name := Some (Cli.name self);
                          device_type := Some self_type;
                          output_formats := Some formats |})
                (catalog_lines self_output_formats) [] c
                (read_formats_sent self self_output_formats [] c)
                (fun a c1 => sent_of_ret _ c1)) as H.
  rewrite app_nil_r in H. exact H.
Qed.

Lemma dict_set_keys_In {V} (d : dict V) (k k' : str) (v : V) :
  In k' (keys (dict_set d k v)) <-> In k' (keys d) \/ k' = k.
Proof.
  induction d as [|[k0 v0] r IH]; cbn [dict_set keys map fst In].
  - intuition congruence.
  - destruct (str_eqb k0 k) eqn:E; cbn [keys map fst In].
    + apply str_eqb_eq in E. subst k0. intuition congruence.
    + unfold keys in IH. rewrite IH. intuition congruence.
Qed.

(** A section holds the given commands beside what it held, each with a
    text that ends with a new line. *)
Lemma read_each_section (self : Cli.t) (output_format : Format.t)
    (commands : list str) :
  forall (section section' : dict str) (c c' : console),
    NetCatCliAccess.read_each self output_format commands section c
    = (Ok section', c') ->
    (forall k, In k (keys section')
               <-> In k (keys section) \/ In k commands) /\
    (forall k v, In (k, v) section' ->
                 In (k, v) section \/ exists text, v = text ++ [10]).
Proof.
  induction commands as [|command r IH]; intros section section' c c';
    cbn [NetCatCliAccess.read_each].
  - intros [= <- <-]. split; [cbn [In]; tauto|auto].
  - unfold mbind at 1.
    destruct (NetCatCliAccess.send_command self command None c)
      as [[output|e] c1]; [|discriminate].
    intros H. destruct (IH _ _ _ _ H) as [K V]. split.
    + intros k. rewrite K, dict_set_keys_In. cbn [In]. intuition congruence.
    + intros k v I. destruct (V k v I) as [I'|T]; [|now right].
      destruct (dict_set_In _ _ _ _ _ I') as [I0|[_ ->]]; [now left|].
      right. unfold NetCatCliAccess.kept. eauto.
Qed.

Lemma read_formats_sections (self : Cli.t) (catalog : list Format.t)
    (output_formats : list Format.t) :
  forall (formats formats' : dict (dict str)) (c c' : console),
    (forall f, In f output_formats -> In f catalog) ->
    NetCatCliAccess.read_formats self output_formats formats c
    = (Ok formats', c') ->
    Forall (section_of catalog) formats ->
    Forall (section_of catalog) formats' /\
    (forall name, In name (keys formats')
                  <-> In name (keys formats)
                      \/ In name (map Format.format_name output_formats)).
Proof.
  induction output_formats as [|output_format r IH];
    intros formats formats' c c' Sub; cbn [NetCatCliAccess.read_formats].
  - intros [= <- <-] F. split; [exact F|]. cbn [map In]. tauto.
  - unfold mbind at 1.
    destruct (NetCatCliAccess.send_each self _ c) as [[[]|e] c1];
      [|discriminate].
    unfold mbind at 1.
    destruct (NetCatCliAccess.read_each self output_format _ [] c1)
      as [[section|e] c2] eqn:R; [|discriminate].
    cbv zeta. unfold mbind at 1.
    destruct (NetCatCliAccess.send_each self _ c2) as [[[]|e] c3];
      [|discriminate].
    intros H F.
    destruct (read_each_section _ _ _ _ _ _ _ R) as [K V].
    assert (F' : Forall (section_of catalog)
                   (dict_set formats (Format.format_name output_format) section)).
    { rewrite Forall_forall in *. intros [name s] I.
      destruct (dict_set_In _ _ _ _ _ I) as [I0|[-> ->]]; [now apply F|].
      exists output_format. cbn [fst snd]. repeat split.
      - apply Sub. now left.
      - intros I1. apply K in I1. destruct I1 as [[]|I1]. exact I1.
      - intros I1. apply K. now right.
      - intros k v I1. destruct (V k v I1) as [[]|T]. exact T. }
    destruct (IH _ _ _ _ (fun f I => Sub f (or_intror I)) H F') as [G N].
    split; [exact G|]. intros name. rewrite N, dict_set_keys_In.
    cbn [map In]. intuition congruence.
Qed.

(** X26: the snapshot that [get_device_data] of the session returns has
    the name of the device, the type and the time stamp of the adapter,
    and mirrors the catalog: its formats are those named in the catalog,
    and each of them is the section of a catalog entry of that name, whose
    keys are the commands of the entry and whose texts end with a new
    line. *)
Theorem get_device_data_mirrors_catalog (self : Cli.t) (self_timestamp : Z)
    (self_type : str) (self_output_formats : list Format.t)
    (c c' : console) (device_data : device_data) :
  NetCatCliAccess.get_device_data self self_timestamp self_type
    self_output_formats c = (Ok device_data, c') ->
  exists formats,
    device_data = {| snapshot_timestamp := Some self_timestamp;
                     device_name := Some (Cli.name self);
                     device_type := Some self_type;
                     output_formats := Some formats |}
    /\ (forall name, In name (keys formats)
                     <-> In name (map Format.format_name self_output_formats))
    /\ Forall (section_of self_output_formats) formats.
Proof.
  unfold NetCatCliAccess.get_device_data, mbind.
  destruct (NetCatCliAccess.read_formats self self_output_formats [] c)
    as [[formats|e] c1] eqn:R; [|discriminate].
  unfold ret. intros [= <- <-]. exists formats.
  destruct (read_formats_sections self self_output_formats self_output_formats
              [] formats c c1 (fun f I => I) R (Forall_nil _)) as [G N].
  split; [reflexivity|]. split; [|exact G].
  intros name. rewrite N. cbn [keys map In]. tauto.
Qed.

Lemma get_device_data_mirrors_catalog_witness :
  exists formats,
    fst (NetCatCliAccess.get_device_data sample_cli 0 (lit "cisco_asa_mc")
           sample_catalog answering_console)
    = Ok {| snapshot_timestamp := Some 0;
            device_name := Some (Cli.name sample_cli);
            device_type := Some (lit "cisco_asa_mc");
            output_formats := Some formats |}
    /\ (forall name, In name (keys formats)
                     <-> In name (map Format.format_name sample_catalog))
    /\ Forall (section_of sample_catalog) formats.
Proof.
  destruct (NetCatCliAccess.get_device_data sample_cli 0 (lit "cisco_asa_mc")
              sample_catalog answering_console) as [r c'] eqn:E.
  assert (O : exists d, r = Ok d).
  { apply (f_equal fst) in E. vm_compute in E. subst r. eauto. }
  destruct O as [d ->].
  destruct (get_device_data_mirrors_catalog sample_cli 0 (lit "cisco_asa_mc")
              sample_catalog answering_console c' d E)
    as (formats & -> & N & G).
  exists formats. cbn [fst]. auto.
Defined.
